(** * CLTV & ROI dashboard: metrics engine and reallocation simulator

    A shallow embedding of [src/app.py]: [_ensure_cols], [_compute_metrics],
    [simulate_reallocation] and the [_simulate] callback, together with the
    parts of pandas, [json] and Python's built-ins that these functions call.

    Numbers.  The program computes with binary64 floats.  Here a float is an
    exact rational or one of the three IEEE special values, so that [inf] and
    [nan] flow through the arithmetic as they do in numpy, while rounding
    error, overflow and the sign of zero are not represented.  Every result
    of an operation is a reduced fraction, which makes equal numbers equal
    terms. *)

From Stdlib Require Import QArith Qround Qabs ZArith List String Ascii Bool Lia.
From Stdlib Require Import DecimalString Sorted Permutation OrderedTypeEx Lqa.
Import ListNotations.

Local Open Scope Q_scope.

(* ------------------------------------------------------------------ *)
(** ** Floats *)

Module Float.

Inductive float64 : Type :=
| Finite (q : Q)
| PosInf
| NegInf
| NaN.

Definition of_Z (z : Z) : float64 := Finite (inject_Z z).
Definition of_nat (n : nat) : float64 := of_Z (Z.of_nat n).

Definition isnan (x : float64) : bool :=
  match x with NaN => true | _ => false end.

Definition isfinite (x : float64) : bool :=
  match x with Finite _ => true | _ => false end.

Definition neg (x : float64) : float64 :=
  match x with
  | Finite q => Finite (Qred (- q))
  | PosInf => NegInf
  | NegInf => PosInf
  | NaN => NaN
  end.

Definition add (x y : float64) : float64 :=
  match x, y with
  | NaN, _ | _, NaN => NaN
  | PosInf, NegInf | NegInf, PosInf => NaN
  | PosInf, _ | _, PosInf => PosInf
  | NegInf, _ | _, NegInf => NegInf
  | Finite a, Finite b => Finite (Qred (a + b))
  end.

Definition sub (x y : float64) : float64 :=
  match x, y with
  | NaN, _ | _, NaN => NaN
  | PosInf, PosInf | NegInf, NegInf => NaN
  | PosInf, _ | _, NegInf => PosInf
  | NegInf, _ | _, PosInf => NegInf
  | Finite a, Finite b => Finite (Qred (a - b))
  end.

(** The infinity whose sign is that of [c]; [nan] when [c] is [Eq]. *)
Definition signed_inf (c : comparison) : float64 :=
  match c with Gt => PosInf | Lt => NegInf | Eq => NaN end.

Definition sgn (x : float64) : comparison :=
  match x with
  | Finite q => Qcompare q 0
  | PosInf => Gt
  | NegInf => Lt
  | NaN => Eq
  end.

Definition sgn_mul (a b : comparison) : comparison :=
  match a, b with
  | Eq, _ | _, Eq => Eq
  | Gt, c => c
  | Lt, c => CompOpp c
  end.

Definition mul (x y : float64) : float64 :=
  match x, y with
  | NaN, _ | _, NaN => NaN
  | Finite a, Finite b => Finite (Qred (a * b))
  | _, _ => signed_inf (sgn_mul (sgn x) (sgn y))
  end.

(** numpy division: a zero divisor gives [inf] or [nan], never an
    exception.  The only zero is the positive one. *)
Definition div (x y : float64) : float64 :=
  match x, y with
  | NaN, _ | _, NaN => NaN
  | Finite a, Finite b =>
      if Qeq_bool b 0 then signed_inf (Qcompare a 0) else Finite (Qred (a / b))
  | Finite _, _ => Finite 0
  | _, Finite b => if Qle_bool 0 b then x else neg x
  | _, _ => NaN
  end.

(** Round half to even, to an integer. *)
Definition rint (q : Q) : Z :=
  let f := Qfloor q in
  match Qcompare (q - inject_Z f) (1 # 2) with
  | Lt => f
  | Gt => (f + 1)%Z
  | Eq => if Z.even f then f else (f + 1)%Z
  end.

(** [round(x, 2)]. *)
Definition round2 (x : float64) : float64 :=
  match x with
  | Finite q => Finite (Qred (rint (q * 100) # 100))
  | _ => x
  end.

(** [==] on floats: [nan] equals nothing. *)
Definition eqb (x y : float64) : bool :=
  match x, y with
  | Finite a, Finite b => Qeq_bool a b
  | PosInf, PosInf | NegInf, NegInf => true
  | _, _ => false
  end.

(** [<=] on floats: false as soon as one side is [nan]. *)
Definition leb (x y : float64) : bool :=
  match x, y with
  | NaN, _ | _, NaN => false
  | NegInf, _ | _, PosInf => true
  | Finite a, Finite b => Qle_bool a b
  | _, _ => false
  end.

Definition ltb (x y : float64) : bool := leb x y && negb (eqb x y).

(** Truth value of a number: zero is false, [nan] and [inf] are true. *)
Definition truthy (x : float64) : bool :=
  match x with Finite q => negb (Qeq_bool q 0) | _ => true end.

(** The built-in [sum]: left to right, starting from the integer 0. *)
Definition sum (xs : list float64) : float64 :=
  fold_left add xs (Finite 0).

(** Two digits after the point, as in the format spec [.2f]; a value that
    rounds to zero from below prints without the minus sign here. *)
Definition digits (z : Z) : string := NilZero.string_of_int (Z.to_int z).

Definition fmt_abs (k : Z) : string :=
  let frac := (k mod 100)%Z in
  (digits (k / 100) ++ "." ++
   (if (frac <? 10)%Z then "0" else EmptyString) ++ digits frac)%string.

Definition fmt_2f (x : float64) : string :=
  match x with
  | NaN => "nan"
  | PosInf => "inf"
  | NegInf => "-inf"
  | Finite q =>
      let k := rint (q * 100) in
      ((if (k <? 0)%Z then "-" else EmptyString) ++ fmt_abs (Z.abs k))%string
  end.

(** The format spec [+.2f]. *)
Definition fmt_plus_2f (x : float64) : string :=
  match x with
  | NegInf => "-inf"
  | Finite q =>
      if (rint (q * 100) <? 0)%Z then fmt_2f x else ("+" ++ fmt_2f x)%string
  | _ => ("+" ++ fmt_2f x)%string
  end.

End Float.
Import Float.

(* ------------------------------------------------------------------ *)
(** ** Exceptions *)

(** A value of a table cell or a dictionary key: a number or text.  A
    missing value is the number [nan]. *)
Inductive cell : Type :=
| Num (x : float64)
| Str (s : string).

Inductive exn : Type :=
| ValueError (msg : string)
| KeyError (key : cell)
| TypeError
| AttributeError
| ZeroDivisionError.

Inductive result (A : Type) : Type :=
| Return (a : A)
| Raise (e : exn).
Arguments Return {A} a.
Arguments Raise {A} e.

Definition bind {A B : Type} (m : result A) (k : A -> result B) : result B :=
  match m with
  | Return a => k a
  | Raise e => Raise e
  end.

Notation "x <- m ;; k" := (bind m (fun x => k))
  (at level 61, m at next level, right associativity).
Notation "' p <- m ;; k" := (bind m (fun x => match x with p => k end))
  (at level 61, p pattern, m at next level, right associativity).

Fixpoint mapM {A B : Type} (f : A -> result B) (l : list A) : result (list B) :=
  match l with
  | [] => Return []
  | a :: l' => b <- f a ;; bs <- mapM f l' ;; Return (b :: bs)
  end.

(* ------------------------------------------------------------------ *)
(** ** pandas: series, frames, aggregation *)

Module Cell.

Definition isna (c : cell) : bool :=
  match c with Num x => isnan x | Str _ => false end.

Definition notna (c : cell) : bool := negb (isna c).

(** Equality of group keys and of dictionary keys. *)
Definition eqb (a b : cell) : bool :=
  match a, b with
  | Num x, Num y => Float.eqb x y
  | Str s, Str t => String.eqb s t
  | _, _ => false
  end.

(** The order in which [groupby] lays out its keys: numbers by value, text
    by code point, and numbers before text in a column that mixes them. *)
Definition ltb (a b : cell) : bool :=
  match a, b with
  | Num x, Num y => Float.ltb x y
  | Num _, Str _ => true
  | Str _, Num _ => false
  | Str s, Str t => String.ltb s t
  end.

(** A numeric cell; arithmetic on text raises [TypeError]. *)
Definition to_float (c : cell) : result float64 :=
  match c with
  | Num x => Return x
  | Str _ => Raise TypeError
  end.

End Cell.

Definition Series : Type := list cell.

(** A frame is its columns in header order; all columns share one index. *)
Definition DataFrame : Type := list (string * Series).

Definition columns (df : DataFrame) : list string := map fst df.

Definition len (df : DataFrame) : nat :=
  match df with
  | [] => 0%nat
  | (_, s) :: _ => List.length s
  end.

Fixpoint lookup_col (df : DataFrame) (c : string) : option Series :=
  match df with
  | [] => None
  | (name, s) :: df' => if String.eqb name c then Some s else lookup_col df' c
  end.

(** [df[c]] *)
Definition getitem (df : DataFrame) (c : string) : result Series :=
  match lookup_col df c with
  | Some s => Return s
  | None => Raise (KeyError (Str c))
  end.

(** [df[c] = s]: an existing column is replaced in place, a new one is
    appended. *)
Fixpoint setitem (df : DataFrame) (c : string) (s : Series) : DataFrame :=
  match df with
  | [] => [(c, s)]
  | (name, s0) :: df' =>
      if String.eqb name c then (name, s) :: df'
      else (name, s0) :: setitem df' c s
  end.

(** The values of a numeric column. *)
Definition as_floats (s : Series) : result (list float64) :=
  mapM Cell.to_float s.

Definition of_floats (xs : list float64) : Series := map Num xs.

(** Element-wise arithmetic of two columns on the same index. *)
Fixpoint zip_with {A B C : Type} (f : A -> B -> C) (l1 : list A) (l2 : list B)
  : list C :=
  match l1, l2 with
  | a :: l1', b :: l2' => f a b :: zip_with f l1' l2'
  | _, _ => []
  end.

(** The rows of a column that a boolean mask keeps. *)
Fixpoint select {A : Type} (mask : list bool) (l : list A) : list A :=
  match mask, l with
  | m :: mask', a :: l' => if m then a :: select mask' l' else select mask' l'
  | _, _ => []
  end.

(** [Series.sum()] and the [sum] aggregation: [nan] entries are skipped, the
    empty sum is 0. *)
Definition nansum (xs : list float64) : float64 :=
  Float.sum (filter (fun x => negb (isnan x)) xs).

(** [Series.mean()] and the [mean] aggregation: [nan] entries are skipped,
    the mean of nothing is [nan]. *)
Definition nanmean (xs : list float64) : float64 :=
  let ys := filter (fun x => negb (isnan x)) xs in
  div (Float.sum ys) (of_nat (List.length ys)).

(** The [count] aggregation: the entries that are not missing. *)
Definition count (s : Series) : nat := List.length (filter Cell.notna s).

(** The group keys: the distinct values of the key column that are not
    missing, in ascending order ([sort=True], [dropna=True]). *)
Fixpoint insert_key (k : cell) (keys : list cell) : list cell :=
  match keys with
  | [] => [k]
  | k' :: keys' =>
      if Cell.eqb k k' then keys
      else if Cell.ltb k k' then k :: keys
      else k' :: insert_key k keys'
  end.

Definition group_keys (s : Series) : list cell :=
  fold_left (fun keys k => insert_key k keys) (filter Cell.notna s) [].

(** [Series.nunique()] *)
Definition nunique (s : Series) : nat := List.length (group_keys s).

(** The rows of group [k]. *)
Definition group_mask (key_col : Series) (k : cell) : list bool :=
  map (Cell.eqb k) key_col.

(** The ascending sort behind [sort_values], by a float key none of which
    is [nan].  The default [kind] of pandas is numpy's quicksort, which sorts
    a short array by insertion and so keeps equal keys in their order; the
    model is that insertion sort, for every length. *)
Section Argsort.
Context {A : Type} (key : A -> float64).

Fixpoint insert_sorted (a : A) (l : list A) : list A :=
  match l with
  | [] => [a]
  | b :: l' =>
      if Float.leb (key a) (key b) then a :: l
      else b :: insert_sorted a l'
  end.

Fixpoint argsort (l : list A) : list A :=
  match l with
  | [] => []
  | a :: l' => insert_sorted a (argsort l')
  end.

(** [sort_values(by, ascending=False)] with the default [na_position]:
    the rows whose key is not [nan] are reversed, sorted ascending and
    reversed again, and the rows whose key is [nan] follow in their
    original order. *)
Definition sort_values_desc (l : list A) : list A :=
  let non_nans := filter (fun a => negb (isnan (key a))) l in
  let nans := filter (fun a => isnan (key a)) l in
  rev (argsort (rev non_nans)) ++ nans.
End Argsort.

(* ------------------------------------------------------------------ *)
(** ** The metrics engine *)

Local Open Scope string_scope.

Definition REQUIRED_COLS : list string :=
  ["customer_id"; "channel"; "cost"; "conversion_rate"; "revenue"].

(** How an f-string prints a list of plain identifiers. *)
Definition repr_str (s : string) : string := "'" ++ s ++ "'".

Fixpoint join (sep : string) (l : list string) : string :=
  match l with
  | [] => EmptyString
  | [s] => s
  | s :: l' => s ++ sep ++ join sep l'
  end.

Definition repr_list (l : list string) : string :=
  "[" ++ join ", " (map repr_str l) ++ "]".

Definition newline : string := String "010"%char EmptyString.

Definition missing_cols (df : DataFrame) : list string :=
  filter (fun c => negb (existsb (String.eqb c) (columns df))) REQUIRED_COLS.

Definition missing_message (missing : list string) : string :=
  "Missing columns: " ++ repr_list missing ++ newline ++
  "Expected: " ++ repr_list REQUIRED_COLS.

(** One [ValueError] that lists every required column the frame lacks. *)
Definition _ensure_cols (df : DataFrame) : result unit :=
  let missing := missing_cols df in
  match missing with
  | [] => Return tt
  | _ :: _ => Raise (ValueError (missing_message missing))
  end.

(** A row of the aggregated frame, before the share column is added. *)
Record GroupAgg : Type := mkGroupAgg {
  g_channel : cell;
  g_customers : nat;
  g_avg_cost : float64;
  g_avg_conv_rate : float64;
  g_total_revenue : float64;
  g_avg_roi : float64;
  g_avg_cltv : float64
}.

(** A row of the channel report [by_channel]. *)
Record ChannelSummary : Type := mkChannelSummary {
  channel : cell;
  customers : nat;
  avg_cost : float64;
  avg_conv_rate : float64;
  total_revenue : float64;
  avg_roi : float64;
  avg_cltv : float64;
  revenue_share_pct : float64
}.

(** The dictionary [meta]. *)
Record SummaryStats : Type := mkSummaryStats {
  rows : nat;
  channels : nat;
  meta_current_weighted_roi : float64;
  current_avg_cltv : float64
}.

(** [df.groupby("channel").agg(...)]: one row per key, in key order. *)
Definition groupby_agg (channel_col customer_id : Series)
  (cost conversion_rate revenue roi cltv : list float64) : list GroupAgg :=
  map (fun k =>
         let mask := group_mask channel_col k in
         {| g_channel := k;
            g_customers := count (select mask customer_id);
            g_avg_cost := nanmean (select mask cost);
            g_avg_conv_rate := nanmean (select mask conversion_rate);
            g_total_revenue := nansum (select mask revenue);
            g_avg_roi := nanmean (select mask roi);
            g_avg_cltv := nanmean (select mask cltv) |})
      (group_keys channel_col).

(** A row of the report: the aggregates of a group and its share of
    [total], the sum of the column [total_revenue]. *)
Definition share_row (total : float64) (g : GroupAgg) : ChannelSummary :=
  {| channel := g_channel g;
     customers := g_customers g;
     avg_cost := g_avg_cost g;
     avg_conv_rate := g_avg_conv_rate g;
     total_revenue := g_total_revenue g;
     avg_roi := g_avg_roi g;
     avg_cltv := g_avg_cltv g;
     revenue_share_pct := div (mul (of_Z 100) (g_total_revenue g)) total |}.

(** The assignment of the column [revenue_share_%]. *)
Definition with_revenue_share (sorted : list GroupAgg) : list ChannelSummary :=
  map (share_row (nansum (map g_total_revenue sorted))) sorted.

Definition numeric_column (df : DataFrame) (c : string) : result (list float64) :=
  s <- getitem df c ;; as_floats s.

(** The enriched frame, the channel report and the summary.  Frames are
    values here, so [df.copy()] has nothing to do: the caller's frame is
    never changed.  The three numeric columns are read as floats once; text
    in any of them makes the arithmetic raise [TypeError]. *)
Definition _compute_metrics (df : DataFrame)
  : result (DataFrame * list ChannelSummary * SummaryStats) :=
  _ <- _ensure_cols df ;;
  revenue <- numeric_column df "revenue" ;;
  cost <- numeric_column df "cost" ;;
  let roi := zip_with div revenue cost in
  conversion_rate <- numeric_column df "conversion_rate" ;;
  let cltv :=
    zip_with div (zip_with mul (zip_with sub revenue cost) conversion_rate) cost in
  let df := setitem (setitem df "roi" (of_floats roi)) "cltv" (of_floats cltv) in
  channel_col <- getitem df "channel" ;;
  customer_id <- getitem df "customer_id" ;;
  let by_channel :=
    with_revenue_share
      (sort_values_desc g_avg_cltv
         (groupby_agg channel_col customer_id cost conversion_rate revenue roi cltv)) in
  let meta :=
    {| rows := len df;
       channels := nunique channel_col;
       meta_current_weighted_roi := nanmean roi;
       current_avg_cltv := nanmean cltv |} in
  Return (df, by_channel, meta).

(* ------------------------------------------------------------------ *)
(** ** json.loads *)

#[local] Set Warnings "-register-all".

Inductive json : Type :=
| JNull
| JBool (b : bool)
| JNum (x : float64)
| JStr (s : string)
| JArr (items : list json)
| JObj (members : list (string * json)).

Module Json.

Definition is_ws (c : ascii) : bool :=
  Ascii.eqb c " " || Ascii.eqb c "009" || Ascii.eqb c "010" || Ascii.eqb c "013".

Fixpoint skip_ws (s : string) : string :=
  match s with
  | String c rest => if is_ws c then skip_ws rest else s
  | EmptyString => s
  end.

Fixpoint drop (n : nat) (s : string) : string :=
  match n, s with
  | S n', String _ rest => drop n' rest
  | _, _ => s
  end.

(** The text after the literal [lit], when [s] starts with it. *)
Definition literal (lit s : string) : option string :=
  if String.prefix lit s then Some (drop (String.length lit) s) else None.

Definition digit_val (c : ascii) : option Z :=
  let n := N_of_ascii c in
  if ((48 <=? n) && (n <=? 57))%N then Some (Z.of_N n - 48)%Z else None.

Definition hex_val (c : ascii) : option N :=
  let n := N_of_ascii c in
  if ((48 <=? n) && (n <=? 57))%N then Some (n - 48)%N
  else if ((65 <=? n) && (n <=? 70))%N then Some (n - 55)%N
  else if ((97 <=? n) && (n <=? 102))%N then Some (n - 87)%N
  else None.

(** The longest run of decimal digits at the head of [s]: its value so
    far, how many digits it has, and what follows. *)
Fixpoint digits_from (acc : Z) (count : nat) (s : string) : Z * nat * string :=
  match s with
  | String c rest =>
      match digit_val c with
      | Some d => digits_from (acc * 10 + d) (S count) rest
      | None => (acc, count, s)
      end
  | EmptyString => (acc, count, s)
  end.

(** The integer part: a lone 0, or a nonzero digit and the digits after it. *)
Definition int_part (s : string) : option (Z * string) :=
  match s with
  | String c rest =>
      if Ascii.eqb c "0" then Some (0%Z, rest)
      else match digits_from 0 0 s with
           | (_, O, _) => None
           | (v, S _, rest') => Some (v, rest')
           end
  | EmptyString => None
  end.

(** An optional point with at least one digit: numerator and number of
    digits of the fraction. *)
Definition frac_part (s : string) : Z * nat * string :=
  match s with
  | String c rest =>
      if Ascii.eqb c "." then
        match digits_from 0 0 rest with
        | (_, O, _) => (0%Z, O, s)
        | (v, S k, rest') => (v, S k, rest')
        end
      else (0%Z, O, s)
  | EmptyString => (0%Z, O, s)
  end.

(** An optional exponent: e or E, an optional sign, at least one digit. *)
Definition exp_part (s : string) : Z * string :=
  match s with
  | String c rest =>
      if Ascii.eqb c "e" || Ascii.eqb c "E" then
        let '(negative, body) :=
          match rest with
          | String sg rest' =>
              if Ascii.eqb sg "-" then (true, rest')
              else if Ascii.eqb sg "+" then (false, rest')
              else (false, rest)
          | EmptyString => (false, rest)
          end in
        match digits_from 0 0 body with
        | (_, O, _) => (0%Z, s)
        | (v, S _, rest') => ((if negative then - v else v)%Z, rest')
        end
      else (0%Z, s)
  | EmptyString => (0%Z, s)
  end.

Definition pow10 (n : Z) : Q := inject_Z (10 ^ n).

(** The value of a number literal, exactly. *)
Definition number (s : string) : option (float64 * string) :=
  let '(negative, body) :=
    match s with
    | String c rest => if Ascii.eqb c "-" then (true, rest) else (false, s)
    | EmptyString => (false, s)
    end in
  match int_part body with
  | None => None
  | Some (i, s1) =>
      let '(f, k, s2) := frac_part s1 in
      let '(e, s3) := exp_part s2 in
      let mantissa := (inject_Z i + inject_Z f / pow10 (Z.of_nat k))%Q in
      let scaled :=
        (if (0 <=? e)%Z then mantissa * pow10 e else mantissa / pow10 (- e))%Q in
      Some (Finite (Qred (if negative then - scaled else scaled)%Q), s3)
  end.

(** A code point as UTF-8 bytes. *)
Definition byte (n : N) : string := String (ascii_of_N n) EmptyString.

Definition utf8 (cp : N) : string :=
  if (cp <? 128)%N then byte cp
  else if (cp <? 2048)%N then
    byte (192 + cp / 64) ++ byte (128 + cp mod 64)
  else if (cp <? 65536)%N then
    byte (224 + cp / 4096) ++ byte (128 + (cp / 64) mod 64) ++
    byte (128 + cp mod 64)
  else
    byte (240 + cp / 262144) ++ byte (128 + (cp / 4096) mod 64) ++
    byte (128 + (cp / 64) mod 64) ++ byte (128 + cp mod 64).

Definition hex4 (a b c d : ascii) : option N :=
  match hex_val a, hex_val b, hex_val c, hex_val d with
  | Some x, Some y, Some z, Some w => Some (((x * 16 + y) * 16 + z) * 16 + w)%N
  | _, _, _, _ => None
  end.

Definition is_high_surrogate (cp : N) : bool := ((55296 <=? cp) && (cp <=? 56319))%N.
Definition is_low_surrogate (cp : N) : bool := ((56320 <=? cp) && (cp <=? 57343))%N.

Definition simple_escape (c : ascii) : option ascii :=
  if Ascii.eqb c "034" then Some "034"%char
  else if Ascii.eqb c "\" then Some "\"%char
  else if Ascii.eqb c "/" then Some "/"%char
  else if Ascii.eqb c "b" then Some "008"%char
  else if Ascii.eqb c "f" then Some "012"%char
  else if Ascii.eqb c "n" then Some "010"%char
  else if Ascii.eqb c "r" then Some "013"%char
  else if Ascii.eqb c "t" then Some "009"%char
  else None.

(** A high surrogate followed by an escaped low surrogate is one code
    point. *)
Definition surrogate_pair (cp : N) (b u l1 l2 l3 l4 : ascii) : option N :=
  if is_high_surrogate cp && Ascii.eqb b "\" && Ascii.eqb u "u" then
    match hex4 l1 l2 l3 l4 with
    | Some lo =>
        if is_low_surrogate lo
        then Some (65536 + (cp - 55296) * 1024 + (lo - 56320))%N
        else None
    | None => None
    end
  else None.

Definition prepend (chunk : string) (r : option (string * string))
  : option (string * string) :=
  match r with
  | Some (body, after) => Some (chunk ++ body, after)
  | None => None
  end.

(** The body of a string literal, after its opening quote. *)
Fixpoint scanstring (s : string) : option (string * string) :=
  match s with
  | EmptyString => None
  | String c rest =>
      if Ascii.eqb c "034" then Some (EmptyString, rest)
      else if (N_of_ascii c <? 32)%N then None
      else if Ascii.eqb c "\" then
        match rest with
        | EmptyString => None
        | String e rest1 =>
            if Ascii.eqb e "u" then
              match rest1 with
              | String h1 (String h2 (String h3 (String h4 rest2))) =>
                  match hex4 h1 h2 h3 h4 with
                  | None => None
                  | Some cp =>
                      match rest2 with
                      | String b (String u (String l1 (String l2
                          (String l3 (String l4 rest3))))) =>
                          match surrogate_pair cp b u l1 l2 l3 l4 with
                          | Some full => prepend (utf8 full) (scanstring rest3)
                          | None => prepend (utf8 cp) (scanstring rest2)
                          end
                      | _ => prepend (utf8 cp) (scanstring rest2)
                      end
                  end
              | _ => None
              end
            else
              match simple_escape e with
              | None => None
              | Some ch => prepend (String ch EmptyString) (scanstring rest1)
              end
        end
      else prepend (String c EmptyString) (scanstring rest)
  end.

(** [dict(pairs)]: a repeated key keeps its first position and takes the
    last value. *)
Fixpoint dict_set {V : Type} (d : list (string * V)) (k : string) (v : V)
  : list (string * V) :=
  match d with
  | [] => [(k, v)]
  | (k', v') :: d' =>
      if String.eqb k' k then (k', v) :: d' else (k', v') :: dict_set d' k v
  end.

Definition dict_of_pairs {V : Type} (pairs : list (string * V))
  : list (string * V) :=
  fold_left (fun d kv => dict_set d (fst kv) (snd kv)) pairs [].

Definition starts_with (c : ascii) (s : string) : bool :=
  match s with
  | String c' _ => Ascii.eqb c c'
  | EmptyString => false
  end.

(** The scanner.  [fuel] bounds the nesting of the calls; each call below
    the first has consumed a character or will consume one before it calls
    again, so twice the length of the text is enough. *)
Fixpoint scan_once (fuel : nat) (s : string) : option (json * string) :=
  match fuel with
  | O => None
  | S fuel' =>
      match s with
      | EmptyString => None
      | String c rest =>
          if Ascii.eqb c "034" then
            match scanstring rest with
            | Some (str, after) => Some (JStr str, after)
            | None => None
            end
          else if Ascii.eqb c "{" then
            let body := skip_ws rest in
            match body with
            | String c' after =>
                if Ascii.eqb c' "}" then Some (JObj [], after)
                else if Ascii.eqb c' "034" then
                  match scan_members fuel' after with
                  | Some (pairs, after') => Some (JObj (dict_of_pairs pairs), after')
                  | None => None
                  end
                else None
            | EmptyString => None
            end
          else if Ascii.eqb c "[" then
            let body := skip_ws rest in
            if starts_with "]" body then Some (JArr [], drop 1 body)
            else
              match scan_items fuel' body with
              | Some (items, after) => Some (JArr items, after)
              | None => None
              end
          else
            match literal "null" s, literal "true" s, literal "false" s with
            | Some after, _, _ => Some (JNull, after)
            | _, Some after, _ => Some (JBool true, after)
            | _, _, Some after => Some (JBool false, after)
            | None, None, None =>
                match number s with
                | Some (x, after) => Some (JNum x, after)
                | None =>
                    match literal "NaN" s, literal "Infinity" s,
                          literal "-Infinity" s with
                    | Some after, _, _ => Some (JNum NaN, after)
                    | _, Some after, _ => Some (JNum PosInf, after)
                    | _, _, Some after => Some (JNum NegInf, after)
                    | None, None, None => None
                    end
                end
            end
      end
  end

(** The items of an array, from the first one to the closing bracket. *)
with scan_items (fuel : nat) (s : string) : option (list json * string) :=
  match fuel with
  | O => None
  | S fuel' =>
      match scan_once fuel' s with
      | None => None
      | Some (v, after) =>
          match skip_ws after with
          | String c rest =>
              if Ascii.eqb c "]" then Some ([v], rest)
              else if Ascii.eqb c "," then
                match scan_items fuel' (skip_ws rest) with
                | Some (vs, after') => Some (v :: vs, after')
                | None => None
                end
              else None
          | EmptyString => None
          end
      end
  end

(** The members of an object, from just after the opening quote of a key
    to the closing brace. *)
with scan_members (fuel : nat) (s : string)
  : option (list (string * json) * string) :=
  match fuel with
  | O => None
  | S fuel' =>
      match scanstring s with
      | None => None
      | Some (key, after_key) =>
          match skip_ws after_key with
          | String colon after_colon =>
              if Ascii.eqb colon ":" then
                match scan_once fuel' (skip_ws after_colon) with
                | None => None
                | Some (v, after) =>
                    match skip_ws after with
                    | String c rest =>
                        if Ascii.eqb c "}" then Some ([(key, v)], rest)
                        else if Ascii.eqb c "," then
                          match skip_ws rest with
                          | String q rest' =>
                              if Ascii.eqb q "034" then
                                match scan_members fuel' rest' with
                                | Some (kvs, after') =>
                                    Some ((key, v) :: kvs, after')
                                | None => None
                                end
                              else None
                          | EmptyString => None
                          end
                        else None
                    | EmptyString => None
                    end
                end
              else None
          | EmptyString => None
          end
      end
  end.

(** [json.loads(s)]: [None] stands for any exception it raises. *)
Definition loads (s : string) : option json :=
  match scan_once (2 * String.length s + 2) (skip_ws s) with
  | Some (v, after) =>
      match skip_ws after with
      | EmptyString => Some v
      | String _ _ => None
      end
  | None => None
  end.

End Json.

(* ------------------------------------------------------------------ *)
(** ** The reallocation simulator *)

(** A dictionary keeps its keys in insertion order. *)
Module Dict.

Definition t : Type := list (cell * float64).

Fixpoint get (d : t) (k : cell) : option float64 :=
  match d with
  | [] => None
  | (k', v) :: d' => if Cell.eqb k' k then Some v else get d' k
  end.

Definition get_default (d : t) (k : cell) (default : float64) : float64 :=
  match get d k with
  | Some v => v
  | None => default
  end.

Definition setdefault (d : t) (k : cell) (default : float64) : t :=
  match get d k with
  | Some _ => d
  | None => (d ++ [(k, default)])%list
  end.

Fixpoint set (d : t) (k : cell) (v : float64) : t :=
  match d with
  | [] => [(k, v)]
  | (k', v') :: d' =>
      if Cell.eqb k' k then (k', v) :: d' else (k', v') :: set d' k v
  end.

(** [Series.to_dict()] of a series given as index and value pairs. *)
Definition of_series (pairs : list (cell * float64)) : t :=
  fold_left (fun d kv => set d (fst kv) (snd kv)) pairs [].

End Dict.

(** [alloc.values()] and [alloc.items()]: only a dictionary has them. *)
Definition values (alloc : json) : result (list json) :=
  match alloc with
  | JObj members => Return (map snd members)
  | _ => Raise AttributeError
  end.

Definition items (alloc : json) : result (list (string * json)) :=
  match alloc with
  | JObj members => Return members
  | _ => Raise AttributeError
  end.

(** A JSON value as an operand of [+] and [/]: numbers and booleans are
    numbers, anything else raises [TypeError]. *)
Definition number_of (v : json) : result float64 :=
  match v with
  | JNum x => Return x
  | JBool b => Return (if b then Finite 1 else Finite 0)
  | _ => Raise TypeError
  end.

(** [sum(alloc.values())] *)
Definition sum_values (vals : list json) : result float64 :=
  xs <- mapM number_of vals ;; Return (Float.sum xs).

(** Python's [/] on two numbers. *)
Definition truediv (x y : float64) : result float64 :=
  match y with
  | Finite q => if Qeq_bool q 0 then Raise ZeroDivisionError else Return (div x y)
  | _ => Return (div x y)
  end.

(** [kpis.loc[ch, ...]]: the row of the report whose channel is [ch]; the
    channels of a report are distinct. *)
Fixpoint loc (by_df : list ChannelSummary) (ch : cell) : result ChannelSummary :=
  match by_df with
  | [] => Raise (KeyError ch)
  | r :: by_df' => if Cell.eqb (channel r) ch then Return r else loc by_df' ch
  end.

(** The dictionary [delta]. *)
Record Delta : Type := mkDelta {
  current_weighted_roi : float64;
  new_weighted_roi : float64;
  roi_change_pct : float64;
  current_weighted_cltv : float64;
  new_weighted_cltv : float64;
  cltv_change_pct : float64
}.

Definition epsilon : float64 := Finite (1 # 1000000000).

Definition pct_change (new cur : float64) : float64 :=
  div (mul (of_Z 100) (sub new cur)) (add cur epsilon).

Definition invalid_json_text : string := "❌ Invalid JSON.".
Definition load_data_first_text : string := "Load data first.".

Definition render_text (delta : Delta) : string :=
  "**ROI**: " ++ fmt_2f (current_weighted_roi delta) ++ " ➜ " ++
  fmt_2f (new_weighted_roi delta) ++ " (**" ++
  fmt_plus_2f (roi_change_pct delta) ++ "%**)" ++ newline ++ newline ++
  "**CLTV**: " ++ fmt_2f (current_weighted_cltv delta) ++ " ➜ " ++
  fmt_2f (new_weighted_cltv delta) ++ " (**" ++
  fmt_plus_2f (cltv_change_pct delta) ++ "%**)".

(** The weights: the allocation divided by its total, then 0.0 for every
    report channel the allocation does not name. *)
Definition normalized_weights (members : list (string * json)) (s : float64)
  : result Dict.t :=
  mapM (fun kv => v <- number_of (snd kv) ;;
                  w <- truediv v s ;;
                  Return (Str (fst kv), w))
       members.

Definition with_defaults (weights : Dict.t) (index : list cell) : Dict.t :=
  fold_left (fun w ch => Dict.setdefault w ch (Finite 0)) index weights.

(** [sum(kpis.loc[ch, col] * w for ch, w in weights.items())] *)
Definition weighted_sum (by_df : list ChannelSummary)
  (col : ChannelSummary -> float64) (weights : list (cell * float64))
  : result float64 :=
  terms <- mapM (fun cw => r <- loc by_df (fst cw) ;;
                           Return (mul (col r) (snd cw)))
                weights ;;
  Return (Float.sum terms).

(** [sum(kpis.loc[ch, col] * cur_w.get(ch, 0) for ch in kpis.index)] *)
Definition current_sum (by_df : list ChannelSummary)
  (col : ChannelSummary -> float64) (cur_w : Dict.t) : result float64 :=
  weighted_sum by_df col
    (map (fun ch => (ch, Dict.get_default cur_w ch (Finite 0)))
         (map channel by_df)).

(** [(by_df.set_index("channel")["revenue_share_%"] / 100.0).to_dict()] *)
Definition current_weights (by_df : list ChannelSummary) : Dict.t :=
  Dict.of_series
    (map (fun r => (channel r, div (revenue_share_pct r) (of_Z 100))) by_df).

(** The message and the structured result; [None] for [by_df] is Python's
    [None], the state before any table is loaded. *)
Definition simulate_reallocation (by_df : option (list ChannelSummary))
  (allocations_json : string) : result (string * option Delta) :=
  match Json.loads (if String.eqb allocations_json EmptyString then "{}"
                    else allocations_json) with
  | None => Return (invalid_json_text, None)
  | Some alloc =>
      match by_df with
      | None | Some [] => Return (load_data_first_text, None)
      | Some by_df =>
          vals <- values alloc ;;
          total <- sum_values vals ;;
          let s := if truthy total then total else Finite 1 in
          members <- items alloc ;;
          weights <- normalized_weights members s ;;
          let index := map channel by_df in
          let weights := with_defaults weights index in
          new_roi <- weighted_sum by_df avg_roi weights ;;
          new_cltv <- weighted_sum by_df avg_cltv weights ;;
          let cur_w := current_weights by_df in
          cur_roi <- current_sum by_df avg_roi cur_w ;;
          cur_cltv <- current_sum by_df avg_cltv cur_w ;;
          let delta :=
            {| current_weighted_roi := round2 cur_roi;
               new_weighted_roi := round2 new_roi;
               roi_change_pct := round2 (pct_change new_roi cur_roi);
               current_weighted_cltv := round2 cur_cltv;
               new_weighted_cltv := round2 new_cltv;
               cltv_change_pct := round2 (pct_change new_cltv cur_cltv) |} in
          Return (render_text delta, Some delta)
      end
  end.

(* ------------------------------------------------------------------ *)
(** ** The session and the Simulate button *)

(** The three [gr.State] values and the two outputs of the simulator tab. *)
Record Session : Type := mkSession {
  state_df : option DataFrame;
  state_by : option (list ChannelSummary);
  state_meta : option SummaryStats;
  sim_out : string;
  sim_json : option Delta
}.

Definition _simulate (alloc_json : string) (by_df : option (list ChannelSummary))
  : result (string * option Delta) :=
  simulate_reallocation by_df alloc_json.

(** [sim_btn.click(_simulate, inputs=[alloc_in, state_by],
    outputs=[sim_out, sim_json])]: a returned pair is written to the two
    outputs; an exception writes nothing. *)
Definition sim_click (alloc_in : string) (ui : Session) : result Session :=
  out <- _simulate alloc_in (state_by ui) ;;
  Return {| state_df := state_df ui;
            state_by := state_by ui;
            state_meta := state_meta ui;
            sim_out := fst out;
            sim_json := snd out |}.

(* ------------------------------------------------------------------ *)
(** ** The input table as records, and what the specification calls valid *)

(** One row of the input, restricted to the five required columns. *)
Record CustomerRecord : Type := mkCustomerRecord {
  customer_id : cell;
  r_channel : cell;
  cost : float64;
  conversion_rate : float64;
  revenue : float64
}.

(** [recs] are the rows of [df]: each required column of [df] is the
    corresponding field of the records, in row order.  Other columns of
    [df] are unconstrained. *)
Definition rows_of (df : DataFrame) (recs : list CustomerRecord) : Prop :=
  lookup_col df "customer_id" = Some (map customer_id recs) /\
  lookup_col df "channel" = Some (map r_channel recs) /\
  lookup_col df "cost" = Some (map (fun r => Num (cost r)) recs) /\
  lookup_col df "conversion_rate" = Some (map (fun r => Num (conversion_rate r)) recs) /\
  lookup_col df "revenue" = Some (map (fun r => Num (revenue r)) recs).

Definition is_text (c : cell) : bool :=
  match c with Str _ => true | Num _ => false end.

Definition positive (x : float64) : bool :=
  match x with Finite q => negb (Qle_bool q 0) | _ => false end.

Definition nonnegative (x : float64) : bool :=
  match x with Finite q => Qle_bool 0 q | _ => false end.

(** A valid record: a text channel, a positive cost, a revenue that is not
    negative and a conversion rate that is a real number. *)
Definition valid_record (r : CustomerRecord) : bool :=
  is_text (r_channel r) && positive (cost r) && nonnegative (revenue r)
  && isfinite (conversion_rate r).

Definition valid_table (recs : list CustomerRecord) : Prop :=
  forall r, In r recs -> valid_record r = true.

(** The two derived fields of a row. *)
Definition row_roi (r : CustomerRecord) : float64 := div (revenue r) (cost r).

Definition row_cltv (r : CustomerRecord) : float64 :=
  div (mul (sub (revenue r) (cost r)) (conversion_rate r)) (cost r).

(** The rows of one channel, in input order. *)
Definition rows_of_channel (recs : list CustomerRecord) (ch : cell)
  : list CustomerRecord :=
  filter (fun r => Cell.eqb ch (r_channel r)) recs.

(** The aggregates of one channel, computed from its rows. *)
Definition channel_aggregate (recs : list CustomerRecord) (k : cell) : GroupAgg :=
  let rs := rows_of_channel recs k in
  {| g_channel := k;
     g_customers := count (map customer_id rs);
     g_avg_cost := nanmean (map cost rs);
     g_avg_conv_rate := nanmean (map conversion_rate rs);
     g_total_revenue := nansum (map revenue rs);
     g_avg_roi := nanmean (map row_roi rs);
     g_avg_cltv := nanmean (map row_cltv rs) |}.

(** The enriched table: the input with the columns [roi] and [cltv]. *)
Definition enriched (df : DataFrame) (recs : list CustomerRecord) : DataFrame :=
  setitem (setitem df "roi" (of_floats (map row_roi recs)))
          "cltv" (of_floats (map row_cltv recs)).

(** The arithmetic mean: the sum divided by the number of terms. *)
Definition arithmetic_mean (xs : list float64) : float64 :=
  div (Float.sum xs) (of_nat (List.length xs)).

(** The ratio of the totals of a channel, which [avg_roi] is not. *)
Definition ratio_of_totals (rs : list CustomerRecord) : float64 :=
  div (Float.sum (map revenue rs)) (Float.sum (map cost rs)).


(** The exact value of a finite float, and the exact sum of a list. *)
Definition to_Q (x : float64) : Q :=
  match x with Finite q => q | _ => 0%Q end.

Definition qsum (xs : list float64) : Q :=
  fold_right (fun x acc => (to_Q x + acc)%Q) 0%Q xs.


(** The order of the group keys. *)
Definition key_lt (a b : cell) : Prop := Cell.ltb a b = true.

(** Ascending by key, and by [before] among equal keys: what a stable sort
    makes of rows that come in the order [before]. *)
Definition ascending {A : Type} (key : A -> float64) (before : A -> A -> Prop)
  (a b : A) : Prop :=
  Float.ltb (key a) (key b) = true \/
  (Float.eqb (key a) (key b) = true /\ before a b).





(** A report as [_compute_metrics] builds it: no channel is missing and no
    two rows have the same channel. *)
Fixpoint distinct_keys (keys : list cell) : bool :=
  match keys with
  | [] => true
  | k :: keys' => Cell.notna k && negb (existsb (Cell.eqb k) keys')
                  && distinct_keys keys'
  end.

Definition well_formed_report (by_df : list ChannelSummary) : bool :=
  distinct_keys (map channel by_df).

Definition finite_kpis (by_df : list ChannelSummary) : bool :=
  forallb (fun r => isfinite (avg_roi r) && isfinite (avg_cltv r)) by_df.

(** The blend of a per-channel figure by the current revenue shares. *)
Definition revenue_share_blend (col : ChannelSummary -> float64)
  (by_df : list ChannelSummary) : float64 :=
  Float.sum (map (fun r => mul (col r) (div (revenue_share_pct r) (of_Z 100)))
                 by_df).

(** The text that [simulate_reallocation] hands to [json.loads]. *)
Definition allocation_text (allocations_json : string) : string :=
  if String.eqb allocations_json EmptyString then "{}" else allocations_json.

(** An allocation value that is a number, and one that is zero. *)
Definition is_number (v : json) : bool :=
  match v with JNum _ | JBool _ => true | _ => false end.

Definition is_zero_number (v : json) : bool :=
  match v with
  | JNum (Finite q) => Qeq_bool q 0
  | JBool b => negb b
  | _ => false
  end.

(** A channel of the report. *)
Definition in_report (by_df : list ChannelSummary) (k : cell) : bool :=
  existsb (fun r => Cell.eqb (channel r) k) by_df.

(** The text parses as a mapping from keys to numbers. *)
Definition parses_as_mapping (text : string) : Prop :=
  exists members,
    Json.loads (allocation_text text) = Some (JObj members) /\
    forallb (fun kv => is_number (snd kv)) members = true.

(** A text between double quotes. *)
Definition quoted (s : string) : string :=
  String "034"%char EmptyString ++ s ++ String "034"%char EmptyString.


(* ------------------------------------------------------------------ *)
(** ** Sample inputs *)

(** A table that lacks the [revenue] column. *)
Definition table_without_revenue : DataFrame :=
  [("customer_id", [Num (Finite 1)]);
   ("channel", [Str "email"]);
   ("cost", [Num (Finite 10)]);
   ("conversion_rate", [Num (Finite (1 # 2))])].

(** A table with the five required columns, an extra one, and no rows. *)
Definition table_without_rows : DataFrame :=
  [("customer_id", []); ("channel", []); ("cost", []);
   ("conversion_rate", []); ("signup_date", []); ("revenue", [])].

(** A record with a text channel and finite figures. *)
Definition record (id : Z) (ch : string) (c p v : Q) : CustomerRecord :=
  {| customer_id := Num (of_Z id);
     r_channel := Str ch;
     cost := Finite c;
     conversion_rate := Finite p;
     revenue := Finite v |}.

(** The table whose rows are [recs], with the required columns only. *)
Definition table_of (recs : list CustomerRecord) : DataFrame :=
  [("customer_id", map customer_id recs);
   ("channel", map r_channel recs);
   ("cost", map (fun r => Num (cost r)) recs);
   ("conversion_rate", map (fun r => Num (conversion_rate r)) recs);
   ("revenue", map (fun r => Num (revenue r)) recs)].

(** One channel with a cheap and an expensive customer. *)
Definition channel_A_records : list CustomerRecord :=
  [record 1 "A" 10 (1 # 2) 20; record 2 "A" 100 (1 # 2) 100].


(** The end-to-end scenario: one [email] and one [social] customer. *)
Definition scenario_records : list CustomerRecord :=
  [record 1 "email" 10 (1 # 2) 20; record 2 "social" 20 (1 # 5) 10].

(** The report of the end-to-end scenario. *)
Definition scenario_report : list ChannelSummary :=
  [ {| channel := Str "email"; customers := 1; avg_cost := Finite 10;
       avg_conv_rate := Finite (1 # 2); total_revenue := Finite 20;
       avg_roi := Finite 2; avg_cltv := Finite (1 # 2);
       revenue_share_pct := Finite (200 # 3) |};
    {| channel := Str "social"; customers := 1; avg_cost := Finite 20;
       avg_conv_rate := Finite (1 # 5); total_revenue := Finite 10;
       avg_roi := Finite (1 # 2); avg_cltv := Finite (-1 # 10);
       revenue_share_pct := Finite (100 # 3) |} ].

(** A customer acquired at no cost. *)
Definition free_customer_records : list CustomerRecord :=
  [record 1 "email" 0 (1 # 2) 20].

(** The summary of the end-to-end scenario. *)
Definition scenario_meta : SummaryStats :=
  {| rows := 2; channels := 2;
     meta_current_weighted_roi := Finite (5 # 4);
     current_avg_cltv := Finite (1 # 5) |}.

(** An allocation that names a channel the report does not have. *)
Definition ghost_allocation : string :=
  "{" ++ quoted "email" ++ ": 60, " ++ quoted "ghost" ++ ": 40}".

(** An allocation of zeros over the channels of the scenario. *)
Definition zero_allocation : string :=
  "{" ++ quoted "social" ++ ": 0, " ++ quoted "email" ++ ": 0.0}".

(** An allocation of zero to a channel the report does not have. *)
Definition zero_ghost_allocation : string :=
  "{" ++ quoted "ghost" ++ ": 0}".

(** All the weight on [email]. *)
Definition email_only_allocation : string :=
  "{" ++ quoted "email" ++ ": 100}".


(** Valid JSON whose value for [email] is text, not a number. *)
Definition text_valued_allocation : string :=
  "{" ++ quoted "email" ++ ": " ++ quoted "all" ++ "}".

(* ------------------------------------------------------------------ *)
(** ** Further notions used by the properties of the engine *)

(** A column holds text somewhere. *)
Definition has_text (s : Series) : bool := existsb is_text s.

(** The exact count of the rows of a list that satisfy [p], as a sum. *)
Definition nsum {A : Type} (f : A -> nat) (l : list A) : nat :=
  fold_right (fun a acc => (f a + acc)%nat) 0%nat l.

(** Every column of the frame has [n] rows. *)
Definition aligned (df : DataFrame) (n : nat) : Prop :=
  forall c s, In (c, s) df -> List.length s = n.

(** A table with an extra column and the required ones in another order. *)
Definition scenario_table_reordered : DataFrame :=
  [("revenue", map (fun r => Num (revenue r)) scenario_records);
   ("signup_date", [Str "2024-01-05"; Str "2024-02-11"]);
   ("channel", map r_channel scenario_records);
   ("customer_id", map customer_id scenario_records);
   ("conversion_rate", map (fun r => Num (conversion_rate r)) scenario_records);
   ("cost", map (fun r => Num (cost r)) scenario_records)].

(** A table whose [cost] column holds text in its second row. *)
Definition table_with_text_cost : DataFrame :=
  [("customer_id", [Num (Finite 1); Num (Finite 2)]);
   ("channel", [Str "email"; Str "social"]);
   ("cost", [Num (Finite 10); Str "n/a"]);
   ("conversion_rate", [Num (Finite (1 # 2)); Num (Finite (1 # 5))]);
   ("revenue", [Num (Finite 20); Num (Finite 10)])].

(** The rows of the end-to-end scenario with a third customer, in another
    order. *)
Definition three_records : list CustomerRecord :=
  [record 1 "email" 10 (1 # 2) 20; record 2 "social" 20 (1 # 5) 10;
   record 3 "email" 40 (1 # 4) 50].

Definition three_records_shuffled : list CustomerRecord :=
  [record 3 "email" 40 (1 # 4) 50; record 2 "social" 20 (1 # 5) 10;
   record 1 "email" 10 (1 # 2) 20].

(** Two frames have the same required columns, or lack the same ones. *)
Definition same_required (df1 df2 : DataFrame) : Prop :=
  forall c, In c REQUIRED_COLS -> lookup_col df1 c = lookup_col df2 c.

(** Two results agree on the report, on the channel count and the two
    means of the summary, and on the exception. *)
Definition same_report
  (r1 r2 : result (DataFrame * list ChannelSummary * SummaryStats)) : Prop :=
  match r1, r2 with
  | Return (_, by1, m1), Return (_, by2, m2) =>
      by1 = by2 /\ channels m1 = channels m2 /\
      meta_current_weighted_roi m1 = meta_current_weighted_roi m2 /\
      current_avg_cltv m1 = current_avg_cltv m2
  | Raise e1, Raise e2 => e1 = e2
  | _, _ => False
  end.

(* ------------------------------------------------------------------ *)
(** ** Further notions used by the properties of the simulator *)


(** The same keys in the same order, each value of [m2] being [c] times
    the value of [m1]. *)
Definition scaled (c : Q) (m1 m2 : list (string * json)) : Prop :=
  Forall2 (fun kv1 kv2 =>
             fst kv1 = fst kv2 /\
             exists q1 q2,
               number_of (snd kv1) = Return (Finite q1) /\
               number_of (snd kv2) = Return (Finite q2) /\
               (q2 == c * q1)%Q)
          m1 m2.





(* ------------------------------------------------------------------ *)
(** ** Loading a table and rendering the dashboard *)

(** How a callback can fail: a [gr.Error] with its message, an exception of
    [pd.read_csv], or an exception of the engine that nothing catches. *)
Inductive failure : Type :=
| GradioError (msg : string)
| ReadError
| Uncaught (e : exn).

Inductive outcome (A : Type) : Type :=
| Done (a : A)
| Failed (f : failure).
Arguments Done {A} a.
Arguments Failed {A} f.

Definition lift {A : Type} (r : result A) : outcome A :=
  match r with
  | Return a => Done a
  | Raise e => Failed (Uncaught e)
  end.

(** What [_render] returns, the six figures left out: the state triple,
    the status line, the summary for the JSON box and the report for the
    table. *)
Record Rendered : Type := mkRendered {
  r_state : DataFrame * list ChannelSummary * SummaryStats;
  r_status : string;
  r_meta : SummaryStats;
  r_table : list ChannelSummary
}.

(** [str(n)] for a count. *)
Definition str_of_nat (n : nat) : string := digits (Z.of_nat n).

Definition _render (df : DataFrame) (by_df : list ChannelSummary)
  (meta : SummaryStats) (msg_prefix : string) : Rendered :=
  {| r_state := (df, by_df, meta);
     r_status := msg_prefix ++ " • rows: " ++ str_of_nat (rows meta) ++
                 " • channels: " ++ str_of_nat (channels meta);
     r_meta := meta;
     r_table := by_df |}.

(** The session together with the outputs that a load writes. *)
Record Dashboard : Type := mkDashboard {
  session : Session;
  status : string;
  meta_json : option SummaryStats;
  by_table : option (list ChannelSummary)
}.

(** The outputs of a load written to the dashboard; the outputs of the
    simulator tab are not among them. *)
Definition write_rendered (out : Rendered) (ui : Dashboard) : Dashboard :=
  {| session := {| state_df := Some (fst (fst (r_state out)));
                   state_by := Some (snd (fst (r_state out)));
                   state_meta := Some (snd (r_state out));
                   sim_out := sim_out (session ui);
                   sim_json := sim_json (session ui) |};
     status := r_status out;
     meta_json := Some (r_meta out);
     by_table := Some (r_table out) |}.

Section Loading.

(** The configured default path, the files that exist, and what
    [pd.read_csv] makes of a path ([None] when it raises). *)
Variable DATAFILE : string.
Variable path_exists : string -> bool.
Variable read_csv : string -> option DataFrame.

Definition missing_dataset_message : string :=
  "Default dataset '" ++ DATAFILE ++ "' not found in repo root." ++ newline ++
  "Upload the CSV to your Space or set env var DEFAULT_DATAFILE.".

Definition read_and_compute (path : string)
  : outcome (DataFrame * list ChannelSummary * SummaryStats) :=
  match read_csv path with
  | None => Failed ReadError
  | Some df => lift (_compute_metrics df)
  end.

Definition load_builtin
  : outcome (DataFrame * list ChannelSummary * SummaryStats) :=
  if negb (path_exists DATAFILE)
  then Failed (GradioError missing_dataset_message)
  else read_and_compute DATAFILE.

(** [file] is the path of the upload, or [None]. *)
Definition load_uploaded (file : option string)
  : outcome (DataFrame * list ChannelSummary * SummaryStats) :=
  match file with
  | None => load_builtin
  | Some path => read_and_compute path
  end.

(** A click that loads: a returned tuple is written to the outputs, a
    failure writes nothing. *)
Definition render_loaded
  (loaded : outcome (DataFrame * list ChannelSummary * SummaryStats))
  (msg_prefix : string) (ui : Dashboard) : outcome Dashboard :=
  match loaded with
  | Done (df, by_df, meta) => Done (write_rendered (_render df by_df meta msg_prefix) ui)
  | Failed f => Failed f
  end.

Definition on_load_uploaded (file : option string) (ui : Dashboard)
  : outcome Dashboard :=
  render_loaded (load_uploaded file) "Uploaded CSV loaded" ui.

Definition on_load_builtin (ui : Dashboard) : outcome Dashboard :=
  render_loaded load_builtin "Built-in dataset loaded" ui.

End Loading.

(** A disk with the end-to-end scenario at [data.csv] and a table without
    the [revenue] column at [broken.csv]. *)
Definition sample_exists (path : string) : bool :=
  String.eqb path "data.csv" || String.eqb path "broken.csv".

Definition sample_read_csv (path : string) : option DataFrame :=
  if String.eqb path "data.csv" then Some (table_of scenario_records)
  else if String.eqb path "broken.csv" then Some table_without_revenue
  else None.

Definition fresh_dashboard : Dashboard :=
  {| session := {| state_df := None; state_by := None; state_meta := None;
                   sim_out := EmptyString; sim_json := None |};
     status := EmptyString;
     meta_json := None;
     by_table := None |}.

(** Rows with a missing [avg_cltv] come last, and [avg_cltv] never
    increases down the rows that have one. *)
Definition descending_missing_last (by_df : list ChannelSummary) : Prop :=
  forall i j ri rj,
    nth_error by_df i = Some ri -> nth_error by_df j = Some rj -> (i < j)%nat ->
    (isnan (avg_cltv ri) = true -> isnan (avg_cltv rj) = true) /\
    (isnan (avg_cltv rj) = false -> Float.leb (avg_cltv rj) (avg_cltv ri) = true).

(** Customers acquired at no cost and with no revenue, next to paying
    ones: the channel [organic] has no defined [avg_cltv]. *)
Definition table_with_undefined_channel : DataFrame :=
  [("customer_id", [Num (Finite 1); Num (Finite 2); Num (Finite 3)]);
   ("channel", [Str "organic"; Str "email"; Str "social"]);
   ("cost", [Num (Finite 0); Num (Finite 10); Num (Finite 0)]);
   ("conversion_rate", [Num (Finite (1 # 2)); Num (Finite (1 # 2)); Num (Finite (1 # 2))]);
   ("revenue", [Num (Finite 0); Num (Finite 20); Num (Finite 5)])].

(* ================================================================== *)
(** * Properties *)

(* ------------------------------------------------------------------ *)
(** ** Text *)







(* ------------------------------------------------------------------ *)
(** ** Column lookup and the schema check *)

Lemma existsb_eqb_In (c : string) (l : list string) :
  existsb (String.eqb c) l = true <-> In c l.
Proof.
  rewrite existsb_exists. split.
  - intros (x & Hin & Heq). apply String.eqb_eq in Heq. now subst.
  - intros Hin. exists c. split; [assumption | apply String.eqb_refl].
Qed.

Lemma missing_cols_spec (df : DataFrame) (c : string) :
  In c (missing_cols df) <-> In c REQUIRED_COLS /\ ~ In c (columns df).
Proof.
  unfold missing_cols. rewrite filter_In, negb_true_iff.
  rewrite <- (existsb_eqb_In c (columns df)), not_true_iff_false. tauto.
Qed.

Lemma lookup_col_In (df : DataFrame) (c : string) :
  In c (columns df) -> exists s, lookup_col df c = Some s /\ In (c, s) df.
Proof.
  induction df as [|[name s] df IH]; simpl; [tauto|].
  intros Hin. destruct (String.eqb_spec name c) as [-> | Hne].
  - exists s. auto.
  - destruct Hin as [Heq | Hin]; [contradiction|].
    destruct (IH Hin) as (s' & Hl & Hi). exists s'. auto.
Qed.

Lemma lookup_col_Some (df : DataFrame) (c : string) (s : Series) :
  lookup_col df c = Some s -> In c (columns df).
Proof.
  induction df as [|[name s0] df IH]; simpl; [discriminate|].
  destruct (String.eqb_spec name c) as [-> | Hne]; auto.
Qed.

Lemma ensure_cols_ok (df : DataFrame) :
  (forall c, In c REQUIRED_COLS -> In c (columns df)) ->
  _ensure_cols df = Return tt.
Proof.
  intros Hall. unfold _ensure_cols.
  destruct (missing_cols df) as [|c l] eqn:E; [reflexivity|].
  assert (Hin : In c (missing_cols df)) by (rewrite E; now left).
  apply missing_cols_spec in Hin. destruct Hin as [Hreq Hno].
  elim Hno. now apply Hall.
Qed.



(** The message for a table that lacks [revenue], in full. *)
Lemma missing_revenue_message :
  _compute_metrics table_without_revenue =
  Raise (ValueError ("Missing columns: ['revenue']" ++ newline ++
    "Expected: ['customer_id', 'channel', 'cost', 'conversion_rate', 'revenue']")).
Proof. reflexivity. Qed.

(* ------------------------------------------------------------------ *)
(** ** [_compute_metrics] on a table given by its rows *)

Lemma as_floats_map {A : Type} (f : A -> float64) (l : list A) :
  as_floats (map (fun a => Num (f a)) l) = Return (map f l).
Proof.
  unfold as_floats. induction l as [|a l IH]; simpl; [reflexivity|].
  now rewrite IH.
Qed.

Lemma zip_with_map {A B C D : Type} (f : B -> C -> D) (g : A -> B) (h : A -> C)
  (l : list A) :
  zip_with f (map g l) (map h l) = map (fun a => f (g a) (h a)) l.
Proof.
  induction l as [|a l IH]; simpl; [reflexivity | now rewrite IH].
Qed.

Lemma select_map {A B : Type} (p : A -> bool) (f : A -> B) (l : list A) :
  select (map p l) (map f l) = map f (filter p l).
Proof.
  induction l as [|a l IH]; simpl; [reflexivity|].
  destruct (p a); simpl; now rewrite IH.
Qed.

Lemma lookup_col_setitem_other (df : DataFrame) (c c' : string) (s : Series) :
  c <> c' -> lookup_col (setitem df c s) c' = lookup_col df c'.
Proof.
  intros Hne. induction df as [|[name s0] df IH]; simpl.
  - destruct (String.eqb_spec c c'); [contradiction | reflexivity].
  - destruct (String.eqb_spec name c) as [-> | Hnc]; simpl.
    + destruct (String.eqb_spec c c'); [contradiction | reflexivity].
    + now rewrite IH.
Qed.

Lemma group_mask_select {B : Type} (recs : list CustomerRecord) (k : cell)
  (f : CustomerRecord -> B) :
  select (group_mask (map r_channel recs) k) (map f recs) =
  map f (rows_of_channel recs k).
Proof.
  unfold group_mask, rows_of_channel. rewrite map_map. apply select_map.
Qed.

Lemma groupby_agg_rows (recs : list CustomerRecord) :
  groupby_agg (map r_channel recs) (map customer_id recs)
    (map cost recs) (map conversion_rate recs) (map revenue recs)
    (map row_roi recs) (map row_cltv recs) =
  map (channel_aggregate recs) (group_keys (map r_channel recs)).
Proof.
  unfold groupby_agg. apply map_ext. intros k. unfold channel_aggregate.
  now rewrite !group_mask_select.
Qed.

Lemma rows_of_required (df : DataFrame) (recs : list CustomerRecord) :
  rows_of df recs -> forall c, In c REQUIRED_COLS -> In c (columns df).
Proof.
  intros (H1 & H2 & H3 & H4 & H5) c Hin. simpl in Hin.
  destruct Hin as [<-|[<-|[<-|[<-|[<-|[]]]]]];
    eapply lookup_col_Some; eassumption.
Qed.

(** What [_compute_metrics] returns, row by row. *)
Lemma compute_metrics_rows (df : DataFrame) (recs : list CustomerRecord) :
  rows_of df recs ->
  _compute_metrics df =
  Return (enriched df recs,
          with_revenue_share
            (sort_values_desc g_avg_cltv
               (map (channel_aggregate recs) (group_keys (map r_channel recs)))),
          {| rows := len (enriched df recs);
             channels := nunique (map r_channel recs);
             meta_current_weighted_roi := nanmean (map row_roi recs);
             current_avg_cltv := nanmean (map row_cltv recs) |}).
Proof.
  intros Hrows. pose proof (rows_of_required df recs Hrows) as Hreq.
  destruct Hrows as (Hid & Hch & Hcost & Hconv & Hrev).
  unfold _compute_metrics. rewrite (ensure_cols_ok df Hreq). simpl.
  unfold numeric_column, getitem.
  rewrite Hrev, Hcost, Hconv. simpl.
  rewrite !as_floats_map. simpl.
  rewrite !lookup_col_setitem_other by discriminate.
  rewrite Hch, Hid. simpl.
  rewrite !zip_with_map.
  change (map (fun a => div (revenue a) (cost a)) recs) with (map row_roi recs).
  change (map (fun a => div (mul (sub (revenue a) (cost a)) (conversion_rate a))
                            (cost a)) recs)
    with (map row_cltv recs).
  rewrite groupby_agg_rows. reflexivity.
Qed.

(* ------------------------------------------------------------------ *)
(** ** The table without rows *)

Lemma setitem_In (df : DataFrame) (c c' : string) (s s' : Series) :
  In (c, s) (setitem df c' s') -> In (c, s) df \/ s = s'.
Proof.
  induction df as [|[name s0] df IH]; simpl.
  - intros [H|[]]. inversion H. now right.
  - destruct (String.eqb_spec name c') as [-> | Hne]; simpl.
    + intros [H|H]; [inversion H; now right | now left; right].
    + intros [H|H]; [now left; left|].
      destruct (IH H); [now left; right | now right].
Qed.

Lemma lookup_col_setitem_same (df : DataFrame) (c : string) (s : Series) :
  lookup_col (setitem df c s) c = Some s.
Proof.
  induction df as [|[name s0] df IH]; simpl.
  - now rewrite String.eqb_refl.
  - destruct (String.eqb_spec name c) as [-> | Hne]; simpl.
    + now rewrite String.eqb_refl.
    + destruct (String.eqb_spec name c); [contradiction | exact IH].
Qed.

Lemma len_all_empty (df : DataFrame) :
  (forall c s, In (c, s) df -> s = []) -> len df = 0%nat.
Proof.
  destruct df as [|[c s] df]; simpl; [reflexivity|].
  intros H. now rewrite (H c s (or_introl eq_refl)).
Qed.

(** C10.  A table that has the five required columns and no rows makes
    [_compute_metrics] return, without raising: the enriched table has the
    columns [roi] and [cltv] and no rows, the channel report is empty, and
    the summary has [rows = 0], [channels = 0] and [nan] for both means. *)
Theorem empty_table_succeeds (df : DataFrame) :
  (forall c, In c REQUIRED_COLS -> In c (columns df)) ->
  (forall c s, In (c, s) df -> s = []) ->
  exists df',
    _compute_metrics df =
    Return (df', [],
            {| rows := 0;
               channels := 0;
               meta_current_weighted_roi := NaN;
               current_avg_cltv := NaN |}) /\
    len df' = 0%nat /\
    (forall c s, In (c, s) df' -> s = []) /\
    lookup_col df' "roi" = Some [] /\
    lookup_col df' "cltv" = Some [].
Proof.
  intros Hreq Hempty.
  assert (Hcol : forall c, In c REQUIRED_COLS -> lookup_col df c = Some []).
  { intros c Hin. destruct (lookup_col_In df c (Hreq c Hin)) as (s & Hl & Hi).
    now rewrite Hl, (Hempty c s Hi). }
  assert (Hrows : rows_of df []).
  { unfold rows_of; simpl. repeat split; apply Hcol; simpl; tauto. }
  assert (Hall : forall c s, In (c, s) (enriched df []) -> s = []).
  { unfold enriched. simpl. intros c s Hin.
    apply setitem_In in Hin. destruct Hin as [Hin | ->]; [|reflexivity].
    apply setitem_In in Hin. destruct Hin as [Hin | ->]; [|reflexivity].
    eapply Hempty, Hin. }
  exists (enriched df []).
  rewrite (compute_metrics_rows df [] Hrows).
  rewrite (len_all_empty _ Hall).
  split; [reflexivity|].
  split; [reflexivity|].
  split; [exact Hall|].
  unfold enriched. simpl. split.
  - rewrite lookup_col_setitem_other by discriminate.
    apply lookup_col_setitem_same.
  - apply lookup_col_setitem_same.
Qed.

Lemma empty_table_succeeds_witness :
  (forall c, In c REQUIRED_COLS -> In c (columns table_without_rows)) /\
  (forall c s, In (c, s) table_without_rows -> s = []) /\
  exists df',
    _compute_metrics table_without_rows =
    Return (df', [],
            {| rows := 0;
               channels := 0;
               meta_current_weighted_roi := NaN;
               current_avg_cltv := NaN |}).
Proof.
  assert (H1 : forall c, In c REQUIRED_COLS -> In c (columns table_without_rows)).
  { simpl. intros c [<-|[<-|[<-|[<-|[<-|[]]]]]]; tauto. }
  assert (H2 : forall c s, In (c, s) table_without_rows -> s = []).
  { simpl. intros c s [H|[H|[H|[H|[H|[H|[]]]]]]]; now inversion H. }
  split; [exact H1|]. split; [exact H2|].
  destruct (empty_table_succeeds table_without_rows H1 H2) as (df' & Hc & _).
  exists df'. exact Hc.
Defined.

(* ------------------------------------------------------------------ *)
(** ** The order of floats and of keys *)

Module FloatOrder.

Lemma Qeq_bool_false (a b : Q) : Qeq_bool a b = false <-> ~ (a == b)%Q.
Proof.
  split.
  - intros H E. apply Qeq_bool_iff in E. congruence.
  - intros H. destruct (Qeq_bool a b) eqn:E; [|reflexivity].
    apply Qeq_bool_iff in E. contradiction.
Qed.

Lemma Qle_bool_false (a b : Q) : Qle_bool a b = false <-> (b < a)%Q.
Proof.
  split.
  - intros H. apply Qnot_le_lt. intros E. apply Qle_bool_iff in E. congruence.
  - intros H. destruct (Qle_bool a b) eqn:E; [|reflexivity].
    apply Qle_bool_iff in E. lra.
Qed.

Ltac to_Q :=
  repeat match goal with
  | H : Qle_bool _ _ = true |- _ => apply Qle_bool_iff in H
  | H : Qle_bool _ _ = false |- _ => apply Qle_bool_false in H
  | H : Qeq_bool _ _ = true |- _ => apply Qeq_bool_iff in H
  | H : Qeq_bool _ _ = false |- _ => apply Qeq_bool_false in H
  | |- Qle_bool _ _ = true => apply Qle_bool_iff
  | |- Qle_bool _ _ = false => apply Qle_bool_false
  | |- Qeq_bool _ _ = true => apply Qeq_bool_iff
  | |- Qeq_bool _ _ = false => apply Qeq_bool_false
  end.

Ltac split_bools :=
  repeat match goal with
  | H : _ && _ = true |- _ => apply andb_true_iff in H; destruct H
  | H : negb _ = true |- _ => apply negb_true_iff in H
  | H : negb _ = false |- _ => apply negb_false_iff in H
  end.

Lemma float_ltb_spec (x y : float64) :
  Float.ltb x y = true <-> Float.leb x y = true /\ Float.eqb x y = false.
Proof.
  unfold Float.ltb. now rewrite andb_true_iff, negb_true_iff.
Qed.

Lemma float_leb_total (x y : float64) :
  isnan x = false -> isnan y = false ->
  Float.leb x y = true \/ Float.leb y x = true.
Proof.
  destruct x as [a| | |], y as [b| | |]; simpl; try discriminate; auto.
  intros _ _. destruct (Qle_bool a b) eqn:E; [now left | right].
  to_Q. lra.
Qed.

Lemma float_leb_trans (x y z : float64) :
  Float.leb x y = true -> Float.leb y z = true -> Float.leb x z = true.
Proof.
  destruct x as [a| | |], y as [b| | |], z as [c| | |]; simpl;
    try discriminate; auto.
  intros. to_Q. lra.
Qed.

Lemma float_eqb_leb (x y : float64) :
  Float.eqb x y = true -> Float.leb x y = true.
Proof.
  destruct x as [a| | |], y as [b| | |]; simpl; try discriminate; auto.
  intros. to_Q. lra.
Qed.

Lemma float_eqb_sym (x y : float64) : Float.eqb x y = Float.eqb y x.
Proof.
  destruct x as [a| | |], y as [b| | |]; simpl; try reflexivity.
  destruct (Qeq_bool a b) eqn:E1, (Qeq_bool b a) eqn:E2; try reflexivity;
    to_Q; exfalso; [apply E2 | apply E1]; lra.
Qed.

Lemma float_eqb_refl (x : float64) : isnan x = false -> Float.eqb x x = true.
Proof.
  destruct x; simpl; try discriminate; auto. intros. to_Q. lra.
Qed.

Lemma float_leb_antisym (x y : float64) :
  Float.leb x y = true -> Float.leb y x = true -> Float.eqb x y = true.
Proof.
  destruct x as [a| | |], y as [b| | |]; simpl; try discriminate; auto.
  intros. to_Q. lra.
Qed.

Lemma float_leb_false (x y : float64) :
  isnan x = false -> isnan y = false ->
  Float.leb x y = false -> Float.ltb y x = true.
Proof.
  intros Hx Hy H. apply float_ltb_spec.
  destruct (float_leb_total x y Hx Hy) as [E|E]; [congruence|].
  split; [exact E|].
  destruct (Float.eqb y x) eqn:Q; [|reflexivity].
  rewrite float_eqb_sym in Q. apply float_eqb_leb in Q. congruence.
Qed.

Lemma float_ltb_trans (x y z : float64) :
  Float.ltb x y = true -> Float.ltb y z = true -> Float.ltb x z = true.
Proof.
  rewrite !float_ltb_spec. intros [L1 N1] [L2 N2].
  split; [eapply float_leb_trans; eassumption|].
  destruct (Float.eqb x z) eqn:E; [|reflexivity].
  assert (Float.leb z x = true) by (rewrite float_eqb_sym in E; now apply float_eqb_leb).
  assert (Float.leb y x = true) by (eapply float_leb_trans; eassumption).
  assert (Float.eqb x y = true) by now apply float_leb_antisym.
  congruence.
Qed.

Lemma float_leb_ltb_trans (x y z : float64) :
  Float.leb x y = true -> Float.ltb y z = true -> Float.ltb x z = true.
Proof.
  rewrite !float_ltb_spec. intros L1 [L2 N2].
  split; [eapply float_leb_trans; eassumption|].
  destruct (Float.eqb x z) eqn:E; [|reflexivity].
  assert (Float.leb z x = true) by (rewrite float_eqb_sym in E; now apply float_eqb_leb).
  assert (Float.leb z y = true) by (eapply float_leb_trans; eassumption).
  assert (Float.eqb y z = true) by now apply float_leb_antisym.
  congruence.
Qed.

Lemma float_leb_isnan_l (x y : float64) : Float.leb x y = true -> isnan x = false.
Proof. destruct x, y; simpl; congruence. Qed.

Lemma float_leb_isnan_r (x y : float64) : Float.leb x y = true -> isnan y = false.
Proof. destruct x, y; simpl; congruence. Qed.

End FloatOrder.

Module CellOrder.
Import FloatOrder.

Lemma string_ltb_lt (s t : string) :
  String.ltb s t = true <-> String_as_OT.lt s t.
Proof.
  rewrite <- String_as_OT.cmp_lt. unfold String.ltb, String_as_OT.cmp.
  destruct (String.compare s t); split; congruence.
Qed.

Lemma string_ltb_trans (s t u : string) :
  String.ltb s t = true -> String.ltb t u = true -> String.ltb s u = true.
Proof.
  rewrite !string_ltb_lt. apply String_as_OT.lt_trans.
Qed.

Lemma string_ltb_neq (s t : string) :
  String.ltb s t = true -> String.eqb s t = false.
Proof.
  rewrite string_ltb_lt, String.eqb_neq. apply String_as_OT.lt_not_eq.
Qed.

Lemma string_trichotomy (s t : string) :
  String.eqb s t = false -> String.ltb s t = false -> String.ltb t s = true.
Proof.
  intros Hne Hnl. unfold String.ltb in *.
  rewrite (String.compare_antisym s t) in Hnl.
  destruct (String.compare t s) eqn:E; simpl in *; try congruence.
  apply String.compare_eq_iff in E. subst.
  rewrite String.eqb_refl in Hne. discriminate.
Qed.

Lemma cell_ltb_trans (a b c : cell) :
  Cell.ltb a b = true -> Cell.ltb b c = true -> Cell.ltb a c = true.
Proof.
  destruct a, b, c; simpl; try discriminate; auto.
  - apply float_ltb_trans.
  - apply string_ltb_trans.
Qed.

Lemma cell_ltb_neq (a b : cell) : Cell.ltb a b = true -> Cell.eqb a b = false.
Proof.
  destruct a, b; simpl; try discriminate; auto.
  - now rewrite float_ltb_spec.
  - apply string_ltb_neq.
Qed.

Lemma cell_trichotomy (a b : cell) :
  Cell.notna a = true -> Cell.notna b = true ->
  Cell.eqb a b = false -> Cell.ltb a b = false -> Cell.ltb b a = true.
Proof.
  unfold Cell.notna.
  destruct a as [x|s], b as [y|t]; simpl; try discriminate; auto.
  - rewrite !negb_true_iff. intros Hx Hy Hne Hnl.
    apply float_ltb_spec. rewrite float_eqb_sym. split; [|exact Hne].
    destruct (float_leb_total x y Hx Hy) as [L|L]; [|exact L].
    unfold Float.ltb in Hnl. rewrite L, Hne in Hnl. discriminate.
  - intros _ _. apply string_trichotomy.
Qed.

Lemma cell_eqb_sym (a b : cell) : Cell.eqb a b = Cell.eqb b a.
Proof.
  destruct a, b; simpl; try reflexivity.
  - apply float_eqb_sym.
  - apply String.eqb_sym.
Qed.

Lemma cell_eqb_refl (a : cell) : Cell.notna a = true -> Cell.eqb a a = true.
Proof.
  unfold Cell.notna. destruct a; simpl.
  - rewrite negb_true_iff. apply float_eqb_refl.
  - intros _. apply String.eqb_refl.
Qed.

Lemma cell_eqb_text (s : string) (b : cell) :
  Cell.eqb (Str s) b = true <-> b = Str s.
Proof.
  destruct b; simpl; split; try discriminate.
  - intros H. apply String.eqb_eq in H. now subst.
  - intros H. inversion H. apply String.eqb_refl.
Qed.

End CellOrder.
Import FloatOrder CellOrder.

(* ------------------------------------------------------------------ *)
(** ** Group keys *)

Lemma insert_key_In (k x : cell) (keys : list cell) :
  In x (insert_key k keys) -> x = k \/ In x keys.
Proof.
  induction keys as [|k' keys IH]; simpl.
  - intros [<-|[]]. now left.
  - destruct (Cell.eqb k k'); [now right|].
    destruct (Cell.ltb k k'); simpl.
    + intros [<-|H]; [now left | now right].
    + intros [<-|H]; [now right; left|].
      destruct (IH H); [now left | now right; right].
Qed.

Lemma insert_key_keeps (k x : cell) (keys : list cell) :
  In x keys -> In x (insert_key k keys).
Proof.
  induction keys as [|k' keys IH]; simpl; [tauto|].
  destruct (Cell.eqb k k'); [simpl; tauto|].
  destruct (Cell.ltb k k'); simpl; [tauto|].
  intros [<-|H]; [now left | right; now apply IH].
Qed.

Lemma insert_key_has (k : cell) (keys : list cell) :
  Cell.notna k = true ->
  exists x, In x (insert_key k keys) /\ Cell.eqb x k = true.
Proof.
  intros Hk. induction keys as [|k' keys IH]; simpl.
  - exists k. split; [now left | now apply cell_eqb_refl].
  - destruct (Cell.eqb k k') eqn:E.
    + exists k'. split; [now left | now rewrite cell_eqb_sym].
    + destruct (Cell.ltb k k'); simpl.
      * exists k. split; [now left | now apply cell_eqb_refl].
      * destruct IH as (x & Hin & Hx). exists x. split; [now right | exact Hx].
Qed.

Lemma insert_key_sorted (k : cell) (keys : list cell) :
  Cell.notna k = true ->
  Forall (fun x => Cell.notna x = true) keys ->
  StronglySorted key_lt keys ->
  StronglySorted key_lt (insert_key k keys).
Proof.
  intros Hk Hna Hs. induction Hs as [|k' keys Hs IH Hall]; simpl.
  - constructor; constructor.
  - inversion Hna as [|? ? Hk' Hna']; subst.
    destruct (Cell.eqb k k') eqn:E; [now constructor|].
    destruct (Cell.ltb k k') eqn:L.
    + constructor; [now constructor|].
      constructor; [exact L|].
      eapply Forall_impl; [|exact Hall].
      intros x Hx. eapply cell_ltb_trans; eassumption.
    + constructor; [now apply IH|].
      apply Forall_forall. intros x Hx.
      apply insert_key_In in Hx. destruct Hx as [->|Hx].
      * apply cell_trichotomy; auto.
      * rewrite Forall_forall in Hall. now apply Hall.
Qed.

Lemma insert_key_notna (k : cell) (keys : list cell) :
  Cell.notna k = true ->
  Forall (fun x => Cell.notna x = true) keys ->
  Forall (fun x => Cell.notna x = true) (insert_key k keys).
Proof.
  intros Hk Hna. apply Forall_forall. intros x Hx.
  apply insert_key_In in Hx. destruct Hx as [->|Hx]; [exact Hk|].
  rewrite Forall_forall in Hna. now apply Hna.
Qed.

(** The invariant of the fold that builds the keys. *)
Lemma fold_keys_invariant (l acc : list cell) :
  Forall (fun x => Cell.notna x = true) l ->
  Forall (fun x => Cell.notna x = true) acc ->
  StronglySorted key_lt acc ->
  let keys := fold_left (fun keys k => insert_key k keys) l acc in
  Forall (fun x => Cell.notna x = true) keys /\
  StronglySorted key_lt keys /\
  (forall x, In x keys -> In x acc \/ In x l) /\
  (forall x, In x acc -> In x keys) /\
  (forall c, In c l -> exists x, In x keys /\ Cell.eqb x c = true).
Proof.
  revert acc. induction l as [|k l IH]; simpl; intros acc Hl Hacc Hs.
  - repeat split; auto. intros c [].
  - inversion Hl as [|? ? Hk Hl']; subst.
    destruct (IH (insert_key k acc) Hl'
                (insert_key_notna k acc Hk Hacc)
                (insert_key_sorted k acc Hk Hacc Hs))
      as (H1 & H2 & H3 & H4 & H5).
    repeat split; auto.
    + intros x Hx. destruct (H3 x Hx) as [Hi|Hi]; [|now right; right].
      apply insert_key_In in Hi. destruct Hi as [->|Hi]; [right; now left | now left].
    + intros x Hx. now apply H4, insert_key_keeps.
    + intros c [<-|Hc]; [|now apply H5].
      destruct (insert_key_has k acc Hk) as (x & Hin & Hx).
      exists x. split; [now apply H4 | exact Hx].
Qed.

Lemma filter_notna_Forall (s : Series) :
  Forall (fun x => Cell.notna x = true) (filter Cell.notna s).
Proof.
  apply Forall_forall. intros x Hx. now apply filter_In in Hx.
Qed.

Lemma group_keys_notna (s : Series) :
  Forall (fun x => Cell.notna x = true) (group_keys s).
Proof.
  apply (fold_keys_invariant (filter Cell.notna s) []);
    [apply filter_notna_Forall | constructor | constructor].
Qed.

Lemma group_keys_sorted (s : Series) : StronglySorted key_lt (group_keys s).
Proof.
  apply (fold_keys_invariant (filter Cell.notna s) []);
    [apply filter_notna_Forall | constructor | constructor].
Qed.

Lemma group_keys_In (s : Series) (k : cell) :
  In k (group_keys s) -> In k s /\ Cell.notna k = true.
Proof.
  intros Hin.
  destruct (fold_keys_invariant (filter Cell.notna s) []
              (filter_notna_Forall s) (Forall_nil _) (SSorted_nil _))
    as (_ & _ & H3 & _).
  destruct (H3 k Hin) as [[]|Hf]. now apply filter_In in Hf.
Qed.

Lemma group_keys_cover (s : Series) (c : cell) :
  In c s -> Cell.notna c = true ->
  exists k, In k (group_keys s) /\ Cell.eqb k c = true.
Proof.
  intros Hin Hna.
  destruct (fold_keys_invariant (filter Cell.notna s) []
              (filter_notna_Forall s) (Forall_nil _) (SSorted_nil _))
    as (_ & _ & _ & _ & H5).
  apply H5. now apply filter_In.
Qed.

(* ------------------------------------------------------------------ *)
(** ** Sorting *)

Lemma StronglySorted_app {A : Type} (R : A -> A -> Prop) (l1 l2 : list A) :
  StronglySorted R l1 -> StronglySorted R l2 ->
  (forall x y, In x l1 -> In y l2 -> R x y) ->
  StronglySorted R (l1 ++ l2).
Proof.
  intros H1 H2 H. induction H1 as [|a l1 H1 IH Ha]; simpl; [exact H2|].
  constructor.
  - apply IH. intros x y Hx Hy. apply H; simpl; auto.
  - apply Forall_app. split; [exact Ha|].
    apply Forall_forall. intros y Hy. apply H; simpl; auto.
Qed.

Lemma StronglySorted_rev {A : Type} (R : A -> A -> Prop) (l : list A) :
  StronglySorted R l -> StronglySorted (fun a b => R b a) (rev l).
Proof.
  induction 1 as [|a l Hs IH Ha]; simpl; [constructor|].
  apply StronglySorted_app; [exact IH | repeat constructor|].
  intros x y Hx [<-|[]]. apply in_rev in Hx.
  rewrite Forall_forall in Ha. now apply Ha.
Qed.

Lemma StronglySorted_map {A B : Type} (R : B -> B -> Prop) (f : A -> B)
  (l : list A) :
  StronglySorted (fun a b => R (f a) (f b)) l -> StronglySorted R (map f l).
Proof.
  induction 1 as [|a l Hs IH Ha]; simpl; constructor; [exact IH|].
  apply Forall_map. exact Ha.
Qed.

Lemma StronglySorted_impl {A : Type} (R S : A -> A -> Prop) (l : list A) :
  (forall a b, In a l -> In b l -> R a b -> S a b) ->
  StronglySorted R l -> StronglySorted S l.
Proof.
  intros H Hs. induction Hs as [|a l Hs IH Ha]; constructor.
  - apply IH. intros x y Hx Hy. apply H; simpl; auto.
  - rewrite Forall_forall in *. intros x Hx. apply H; simpl; auto.
Qed.

Lemma filter_all {A : Type} (p : A -> bool) (l : list A) :
  (forall x, In x l -> p x = true) -> filter p l = l.
Proof.
  induction l as [|a l IH]; simpl; intros H; [reflexivity|].
  rewrite (H a (or_introl eq_refl)), IH; auto.
Qed.


Lemma filter_split_Permutation {A : Type} (p : A -> bool) (l : list A) :
  Permutation (filter (fun a => negb (p a)) l ++ filter p l) l.
Proof.
  induction l as [|a l IH]; simpl; [constructor|].
  destruct (p a); simpl.
  - apply Permutation_sym, Permutation_cons_app, Permutation_sym, IH.
  - now constructor.
Qed.

Section SortProperties.
Context {A : Type} (key : A -> float64).

Lemma insert_sorted_Permutation (a : A) (l : list A) :
  Permutation (insert_sorted key a l) (a :: l).
Proof.
  induction l as [|b l IH]; simpl; [reflexivity|].
  destruct (Float.leb (key a) (key b)); [reflexivity|].
  rewrite IH. apply perm_swap.
Qed.

Lemma argsort_Permutation (l : list A) : Permutation (argsort key l) l.
Proof.
  induction l as [|a l IH]; simpl; [constructor|].
  rewrite insert_sorted_Permutation. now constructor.
Qed.

Lemma sort_values_desc_Permutation (l : list A) :
  Permutation (sort_values_desc key l) l.
Proof.
  unfold sort_values_desc.
  rewrite <- Permutation_rev, argsort_Permutation, <- Permutation_rev.
  apply (filter_split_Permutation (fun a => isnan (key a))).
Qed.

Variable before : A -> A -> Prop.

Lemma ascending_leb (a b : A) : ascending key before a b -> Float.leb (key a) (key b) = true.
Proof.
  intros [H|[H _]]; [now apply float_ltb_spec in H | now apply float_eqb_leb].
Qed.

Lemma leb_ascending (a b : A) :
  Float.leb (key a) (key b) = true -> before a b -> ascending key before a b.
Proof.
  intros L P. destruct (Float.eqb (key a) (key b)) eqn:E.
  - right. auto.
  - left. apply float_ltb_spec. auto.
Qed.

Lemma insert_sorted_ascending (a : A) (l : list A) :
  isnan (key a) = false ->
  Forall (fun x => isnan (key x) = false) l ->
  Forall (before a) l ->
  StronglySorted (ascending key before) l ->
  StronglySorted (ascending key before) (insert_sorted key a l).
Proof.
  intros Ha Hnan Hbefore Hs.
  induction Hs as [|b l Hs IH Hb]; simpl; [repeat constructor|].
  inversion Hnan as [|? ? Hbn Hnan']; subst.
  inversion Hbefore as [|? ? Hab Hbefore']; subst.
  destruct (Float.leb (key a) (key b)) eqn:L.
  - constructor; [now constructor|].
    constructor; [now apply leb_ascending|].
    rewrite Forall_forall in *. intros x Hx.
    apply leb_ascending; [|now apply Hbefore'].
    eapply float_leb_trans; [exact L|]. now apply ascending_leb, Hb.
  - constructor; [now apply IH|].
    apply Forall_forall. intros x Hx.
    apply (Permutation_in _ (insert_sorted_Permutation a l)) in Hx.
    destruct Hx as [<-|Hx].
    + left. now apply float_leb_false.
    + rewrite Forall_forall in Hb. now apply Hb.
Qed.

Lemma argsort_ascending (l : list A) :
  Forall (fun x => isnan (key x) = false) l ->
  StronglySorted before l ->
  StronglySorted (ascending key before) (argsort key l).
Proof.
  intros Hnan Hs. induction Hs as [|a l Hs IH Ha]; simpl; [constructor|].
  inversion Hnan as [|? ? Han Hnan']; subst.
  apply insert_sorted_ascending; auto.
  - apply Forall_forall. intros x Hx.
    apply (Permutation_in _ (argsort_Permutation l)) in Hx.
    rewrite Forall_forall in Hnan'. now apply Hnan'.
  - apply Forall_forall. intros x Hx.
    apply (Permutation_in _ (argsort_Permutation l)) in Hx.
    rewrite Forall_forall in Ha. now apply Ha.
Qed.

End SortProperties.


(* ------------------------------------------------------------------ *)
(** ** Finite arithmetic *)

Lemma isfinite_Finite (x : float64) :
  isfinite x = true -> exists q, x = Finite q.
Proof. destruct x; try discriminate. eauto. Qed.

Lemma isfinite_not_nan (x : float64) : isfinite x = true -> isnan x = false.
Proof. now destruct x. Qed.



Lemma filter_not_nan_finite (xs : list float64) :
  Forall (fun x => isfinite x = true) xs ->
  filter (fun x => negb (isnan x)) xs = xs.
Proof.
  intros H. apply filter_all. intros x Hx.
  rewrite Forall_forall in H. now rewrite (isfinite_not_nan x (H x Hx)).
Qed.

Lemma nansum_finite (xs : list float64) :
  Forall (fun x => isfinite x = true) xs -> nansum xs = Float.sum xs.
Proof. intros H. unfold nansum. now rewrite filter_not_nan_finite. Qed.

Lemma nanmean_finite (xs : list float64) :
  Forall (fun x => isfinite x = true) xs -> nanmean xs = arithmetic_mean xs.
Proof.
  intros H. unfold nanmean, arithmetic_mean. now rewrite filter_not_nan_finite.
Qed.



Lemma qsum_app (xs ys : list float64) : (qsum (xs ++ ys) == qsum xs + qsum ys)%Q.
Proof.
  induction xs as [|x xs IH]; simpl; [lra | rewrite IH; lra].
Qed.

Lemma qsum_Permutation (xs ys : list float64) :
  Permutation xs ys -> (qsum xs == qsum ys)%Q.
Proof.
  induction 1; simpl; try lra.
Qed.

(** The derived fields of a valid record are finite. *)
Lemma valid_record_fields (r : CustomerRecord) :
  valid_record r = true ->
  exists s c p v,
    r_channel r = Str s /\ cost r = Finite c /\ conversion_rate r = Finite p /\
    revenue r = Finite v /\ (0 < c)%Q /\ (0 <= v)%Q.
Proof.
  unfold valid_record. intros H. split_bools.
  destruct (r_channel r) as [|s]; [discriminate|].
  destruct (cost r) as [c| | |]; try discriminate.
  destruct (revenue r) as [v| | |]; try discriminate.
  destruct (conversion_rate r) as [p| | |]; try discriminate.
  simpl in *. split_bools. to_Q.
  exists s, c, p, v. repeat split; auto.
Qed.

Lemma valid_row_roi (r : CustomerRecord) :
  valid_record r = true -> isfinite (row_roi r) = true.
Proof.
  intros H. destruct (valid_record_fields r H)
    as (s & c & p & v & _ & Hc & _ & Hv & Hpos & _).
  unfold row_roi. rewrite Hc, Hv. simpl.
  replace (Qeq_bool c 0) with false; [reflexivity|].
  symmetry. apply Qeq_bool_false. lra.
Qed.

Lemma valid_row_cltv (r : CustomerRecord) :
  valid_record r = true -> isfinite (row_cltv r) = true.
Proof.
  intros H. destruct (valid_record_fields r H)
    as (s & c & p & v & _ & Hc & Hp & Hv & Hpos & _).
  unfold row_cltv. rewrite Hc, Hv, Hp. simpl.
  replace (Qeq_bool c 0) with false; [reflexivity|].
  symmetry. apply Qeq_bool_false. lra.
Qed.

Lemma valid_revenue (r : CustomerRecord) :
  valid_record r = true -> isfinite (revenue r) = true.
Proof.
  intros H. destruct (valid_record_fields r H)
    as (s & c & p & v & _ & _ & _ & Hv & _). now rewrite Hv.
Qed.

Lemma valid_channel_notna (r : CustomerRecord) :
  valid_record r = true -> Cell.notna (r_channel r) = true.
Proof.
  intros H. destruct (valid_record_fields r H) as (s & c & p & v & Hs & _).
  now rewrite Hs.
Qed.

Lemma rows_of_channel_valid (recs : list CustomerRecord) (k : cell) :
  valid_table recs -> valid_table (rows_of_channel recs k).
Proof.
  intros H r Hr. apply H. unfold rows_of_channel in Hr.
  now apply filter_In in Hr.
Qed.

Lemma Forall_map_valid (f : CustomerRecord -> float64)
  (recs : list CustomerRecord) :
  (forall r, valid_record r = true -> isfinite (f r) = true) ->
  valid_table recs ->
  Forall (fun x => isfinite x = true) (map f recs).
Proof.
  intros Hf H. apply Forall_map, Forall_forall. intros r Hr. apply Hf, H, Hr.
Qed.

(** A key of the grouping has at least one row. *)
Lemma group_rows_nonempty (recs : list CustomerRecord) (k : cell) :
  In k (group_keys (map r_channel recs)) -> rows_of_channel recs k <> [].
Proof.
  intros Hk. apply group_keys_In in Hk. destruct Hk as [Hin Hna].
  apply in_map_iff in Hin. destruct Hin as (r & Hr & Hin).
  intros E. assert (Hf : In r (rows_of_channel recs k)).
  { unfold rows_of_channel. apply filter_In. split; [exact Hin|].
    rewrite Hr. now apply cell_eqb_refl. }
  rewrite E in Hf. destruct Hf.
Qed.


(* ------------------------------------------------------------------ *)
(** ** The channel report *)

Lemma rows_of_table_of (recs : list CustomerRecord) : rows_of (table_of recs) recs.
Proof. unfold rows_of, table_of. simpl. repeat split; reflexivity. Qed.

(** The rows of the report are the aggregates of the group keys. *)
Lemma report_row_inv (recs : list CustomerRecord) (row : ChannelSummary) :
  let sorted :=
    sort_values_desc g_avg_cltv
      (map (channel_aggregate recs) (group_keys (map r_channel recs))) in
  In row (with_revenue_share sorted) ->
  exists k, In k (group_keys (map r_channel recs)) /\
            row = share_row (nansum (map g_total_revenue sorted))
                            (channel_aggregate recs k).
Proof.
  intros sorted Hin. unfold with_revenue_share in Hin.
  apply in_map_iff in Hin. destruct Hin as (g & <- & Hg).
  apply (Permutation_in _ (sort_values_desc_Permutation g_avg_cltv _)) in Hg.
  apply in_map_iff in Hg. destruct Hg as (k & <- & Hk).
  exists k. split; [exact Hk | reflexivity].
Qed.

Lemma report_row_intro (recs : list CustomerRecord) (k : cell) :
  let sorted :=
    sort_values_desc g_avg_cltv
      (map (channel_aggregate recs) (group_keys (map r_channel recs))) in
  In k (group_keys (map r_channel recs)) ->
  In (share_row (nansum (map g_total_revenue sorted)) (channel_aggregate recs k))
     (with_revenue_share sorted).
Proof.
  intros sorted Hk. unfold with_revenue_share. apply in_map.
  apply (Permutation_in _
           (Permutation_sym (sort_values_desc_Permutation g_avg_cltv _))).
  now apply in_map.
Qed.

(** C1.  For a valid table, every channel of the input has a row in the
    report, and in every row of the report [avg_roi] is the arithmetic mean
    of [revenue / cost] over the rows of that channel and [avg_cltv] is the
    arithmetic mean of [(revenue - cost) * conversion_rate / cost] over
    them.  This is the mean of the ratios and not the ratio of the totals:
    for the rows (cost 10, revenue 20) and (cost 100, revenue 100) of one
    channel [avg_roi] is 3/2 while the totals give 12/11. *)
Theorem channel_means_are_means_of_ratios (df : DataFrame)
  (recs : list CustomerRecord) :
  rows_of df recs ->
  valid_table recs ->
  exists df' by_channel meta,
    _compute_metrics df = Return (df', by_channel, meta) /\
    (forall r, In r recs ->
       exists row, In row by_channel /\ channel row = r_channel r) /\
    (forall row, In row by_channel ->
       let rs := rows_of_channel recs (channel row) in
       rs <> [] /\
       avg_roi row = arithmetic_mean (map row_roi rs) /\
       avg_cltv row = arithmetic_mean (map row_cltv rs)) /\
    (exists row,
       _compute_metrics (table_of channel_A_records) =
       Return (enriched (table_of channel_A_records) channel_A_records,
               [row],
               {| rows := 2; channels := 1;
                  meta_current_weighted_roi := Finite (3 # 2);
                  current_avg_cltv := Finite (1 # 4) |}) /\
       avg_roi row = Finite (3 # 2) /\
       ratio_of_totals channel_A_records = Finite (12 # 11)).
Proof.
  intros Hrows Hvalid.
  rewrite (compute_metrics_rows df recs Hrows).
  eexists _, _, _. split; [reflexivity|].
  split; [|split].
  - intros r Hr.
    pose proof (Hvalid r Hr) as Hv.
    destruct (valid_record_fields r Hv) as (s & _ & _ & _ & Hs & _).
    destruct (group_keys_cover (map r_channel recs) (r_channel r))
      as (k & Hk & Heq).
    { now apply in_map. }
    { now apply valid_channel_notna. }
    rewrite Hs, cell_eqb_sym in Heq. apply cell_eqb_text in Heq. subst k.
    eexists. split; [apply report_row_intro; exact Hk|].
    simpl. now rewrite Hs.
  - intros row Hrow. apply report_row_inv in Hrow.
    destruct Hrow as (k & Hk & ->). simpl.
    pose proof (rows_of_channel_valid recs k Hvalid) as Hv.
    split; [now apply group_rows_nonempty|].
    split; apply nanmean_finite, Forall_map_valid; auto using valid_row_roi, valid_row_cltv.
  - eexists. split; [vm_compute; reflexivity|].
    split; vm_compute; reflexivity.
Qed.

Lemma channel_means_are_means_of_ratios_witness :
  rows_of (table_of scenario_records) scenario_records /\
  valid_table scenario_records /\
  exists df' by_channel meta,
    _compute_metrics (table_of scenario_records) = Return (df', by_channel, meta) /\
    (forall row, In row by_channel ->
       let rs := rows_of_channel scenario_records (channel row) in
       rs <> [] /\
       avg_roi row = arithmetic_mean (map row_roi rs) /\
       avg_cltv row = arithmetic_mean (map row_cltv rs)).
Proof.
  assert (H1 : rows_of (table_of scenario_records) scenario_records)
    by apply rows_of_table_of.
  assert (H2 : valid_table scenario_records).
  { intros r [<-|[<-|[]]]; reflexivity. }
  split; [exact H1|]. split; [exact H2|].
  destruct (channel_means_are_means_of_ratios _ _ H1 H2)
    as (df' & by_channel & meta & Hc & _ & Hmeans & _).
  exists df', by_channel, meta. split; [exact Hc | exact Hmeans].
Defined.

(* ------------------------------------------------------------------ *)
(** ** The order of the report *)

Lemma StronglySorted_nth {A : Type} (R : A -> A -> Prop) (l : list A) :
  StronglySorted R l ->
  forall i j a b,
    nth_error l i = Some a -> nth_error l j = Some b -> (i < j)%nat -> R a b.
Proof.
  induction 1 as [|x l Hs IH Hx]; intros i j a b Hi Hj Hlt.
  - destruct i; discriminate.
  - destruct j as [|j]; [lia|]. simpl in Hj.
    destruct i as [|i]; simpl in Hi.
    + inversion Hi; subst. rewrite Forall_forall in Hx.
      eapply Hx, nth_error_In, Hj.
    + eapply IH; eauto. lia.
Qed.







(* ------------------------------------------------------------------ *)
(** ** Revenue shares *)







Lemma sorted_keys_NoDup (keys : list cell) :
  Forall (fun x => Cell.notna x = true) keys ->
  StronglySorted key_lt keys -> NoDup keys.
Proof.
  intros Hna Hs. induction Hs as [|k keys Hs IH Hk]; constructor.
  - intros Hin. rewrite Forall_forall in Hk. specialize (Hk k Hin).
    apply cell_ltb_neq in Hk. inversion Hna; subst.
    rewrite cell_eqb_refl in Hk by assumption. discriminate.
  - apply IH. now inversion Hna.
Qed.







(* ------------------------------------------------------------------ *)
(** ** Well-formed reports *)

Lemma distinct_keys_spec (keys : list cell) :
  distinct_keys keys = true <->
  Forall (fun k => Cell.notna k = true) keys /\
  ForallOrdPairs (fun a b => Cell.eqb a b = false) keys.
Proof.
  induction keys as [|k keys IH]; simpl.
  - split; [intros _; split; constructor | reflexivity].
  - rewrite !andb_true_iff, negb_true_iff, IH. split.
    + intros [[Hk Hex] [Hna Hp]]. split; constructor; auto.
      apply Forall_forall. intros x Hx.
      destruct (Cell.eqb k x) eqn:E; [|reflexivity].
      assert (existsb (Cell.eqb k) keys = true)
        by (apply existsb_exists; eauto).
      congruence.
    + intros [Hna Hp]. inversion Hna; subst. inversion Hp; subst.
      repeat split; auto.
      destruct (existsb (Cell.eqb k) keys) eqn:E; [|reflexivity].
      apply existsb_exists in E. destruct E as (x & Hx & Hkx).
      match goal with H : Forall _ keys |- _ =>
        rewrite Forall_forall in H; specialize (H x Hx) end.
      congruence.
Qed.

Lemma ForallOrdPairs_Permutation {A : Type} (R : A -> A -> Prop) (l l' : list A) :
  (forall a b, R a b -> R b a) ->
  Permutation l l' -> ForallOrdPairs R l -> ForallOrdPairs R l'.
Proof.
  intros Hsym Hperm. induction Hperm; intros H.
  - exact H.
  - inversion H; subst. constructor; [|auto].
    eapply Permutation_Forall; eassumption.
  - inversion H as [|? ? Hy Hr]; subst. inversion Hr as [|? ? Hx Hl]; subst.
    inversion Hy; subst.
    constructor; [constructor; auto|]. constructor; auto.
  - auto.
Qed.

Lemma distinct_keys_Permutation (l l' : list cell) :
  Permutation l l' -> distinct_keys l = true -> distinct_keys l' = true.
Proof.
  intros Hperm. rewrite !distinct_keys_spec. intros [Hna Hp]. split.
  - eapply Permutation_Forall; eassumption.
  - eapply ForallOrdPairs_Permutation; [|exact Hperm|exact Hp].
    intros a b H. now rewrite cell_eqb_sym.
Qed.

Lemma StronglySorted_ForallOrdPairs {A : Type} (R : A -> A -> Prop) (l : list A) :
  StronglySorted R l -> ForallOrdPairs R l.
Proof. induction 1; constructor; auto. Qed.

Lemma ForallOrdPairs_impl {A : Type} (R S : A -> A -> Prop) (l : list A) :
  (forall a b, R a b -> S a b) -> ForallOrdPairs R l -> ForallOrdPairs S l.
Proof.
  intros H. induction 1; constructor; auto.
  eapply Forall_impl; [|eassumption]. auto.
Qed.

Lemma group_keys_distinct (s : Series) : distinct_keys (group_keys s) = true.
Proof.
  apply distinct_keys_spec. split; [apply group_keys_notna|].
  eapply ForallOrdPairs_impl; [|apply StronglySorted_ForallOrdPairs, group_keys_sorted].
  intros a b. apply cell_ltb_neq.
Qed.

Lemma groupby_agg_channels (channel_col customer_id : Series)
  (cost conversion_rate revenue roi cltv : list float64) :
  map g_channel
    (groupby_agg channel_col customer_id cost conversion_rate revenue roi cltv) =
  group_keys channel_col.
Proof.
  unfold groupby_agg. rewrite map_map. simpl. apply map_id.
Qed.

Ltac inv_bind H :=
  match type of H with
  | bind ?m _ = Return _ =>
      let E := fresh "E" in
      destruct m eqn:E; simpl in H; [|discriminate H]
  end.

(** Every report that [_compute_metrics] returns is well formed. *)
Lemma compute_report_well_formed (df df' : DataFrame)
  (by_channel : list ChannelSummary) (meta : SummaryStats) :
  _compute_metrics df = Return (df', by_channel, meta) ->
  well_formed_report by_channel = true.
Proof.
  unfold _compute_metrics. intros H.
  repeat inv_bind H. inversion H; subst. clear H.
  unfold well_formed_report, with_revenue_share. rewrite map_map. simpl.
  change (fun x : GroupAgg => g_channel x) with g_channel.
  eapply distinct_keys_Permutation.
  - apply Permutation_sym, Permutation_map, sort_values_desc_Permutation.
  - rewrite groupby_agg_channels. apply group_keys_distinct.
Qed.

(* ------------------------------------------------------------------ *)
(** ** Lookups in a well-formed report *)

Lemma distinct_keys_tail (k : cell) (keys : list cell) :
  distinct_keys (k :: keys) = true -> distinct_keys keys = true.
Proof. simpl. intros H. split_bools. assumption. Qed.

Lemma distinct_keys_head (k x : cell) (keys : list cell) :
  distinct_keys (k :: keys) = true -> In x keys -> Cell.eqb k x = false.
Proof.
  simpl. intros H Hx. split_bools.
  destruct (Cell.eqb k x) eqn:E; [|reflexivity].
  assert (existsb (Cell.eqb k) keys = true) by (apply existsb_exists; eauto).
  congruence.
Qed.

Lemma distinct_keys_notna (keys : list cell) (x : cell) :
  distinct_keys keys = true -> In x keys -> Cell.notna x = true.
Proof.
  intros H Hx. apply distinct_keys_spec in H. destruct H as [H _].
  rewrite Forall_forall in H. now apply H.
Qed.

Lemma loc_self (by_df : list ChannelSummary) (r : ChannelSummary) :
  well_formed_report by_df = true -> In r by_df ->
  loc by_df (channel r) = Return r.
Proof.
  unfold well_formed_report.
  induction by_df as [|r0 by_df IH]; [simpl; tauto|].
  intros Hwf Hin.
  change (map channel (r0 :: by_df)) with (channel r0 :: map channel by_df) in Hwf.
  cbn [loc]. destruct Hin as [-> | Hin].
  - rewrite cell_eqb_refl; [reflexivity|].
    eapply distinct_keys_notna; [exact Hwf | now left].
  - rewrite (distinct_keys_head _ (channel r) _ Hwf) by now apply in_map.
    apply IH; [|exact Hin]. eapply distinct_keys_tail, Hwf.
Qed.

Lemma loc_In (by_df : list ChannelSummary) (k : cell) (r : ChannelSummary) :
  loc by_df k = Return r -> In r by_df /\ Cell.eqb (channel r) k = true.
Proof.
  induction by_df as [|r0 by_df IH]; simpl; [discriminate|].
  destruct (Cell.eqb (channel r0) k) eqn:E.
  - intros H. inversion H; subst. auto.
  - intros H. destruct (IH H). auto.
Qed.


Lemma loc_known (by_df : list ChannelSummary) (k : cell) :
  existsb (fun r => Cell.eqb (channel r) k) by_df = true ->
  exists r, loc by_df k = Return r.
Proof.
  induction by_df as [|r0 by_df IH]; simpl; [discriminate|].
  destruct (Cell.eqb (channel r0) k); simpl; eauto.
Qed.

(* ------------------------------------------------------------------ *)
(** ** Dictionaries *)

Lemma dict_set_fresh (d : Dict.t) (k : cell) (v : float64) :
  existsb (fun kv => Cell.eqb (fst kv) k) d = false ->
  Dict.set d k v = (d ++ [(k, v)])%list.
Proof.
  induction d as [|[k' v'] d IH]; simpl; [reflexivity|].
  intros H. apply orb_false_iff in H. destruct H as [-> H].
  now rewrite IH.
Qed.

Lemma of_series_distinct_acc (pairs acc : Dict.t) :
  distinct_keys (map fst acc ++ map fst pairs)%list = true ->
  fold_left (fun d kv => Dict.set d (fst kv) (snd kv)) pairs acc =
  (acc ++ pairs)%list.
Proof.
  revert acc. induction pairs as [|[k v] pairs IH]; intros acc H; simpl.
  - now rewrite app_nil_r.
  - rewrite dict_set_fresh.
    + rewrite IH; [now rewrite <- app_assoc|].
      rewrite map_app. simpl. now rewrite <- app_assoc.
    + simpl in H. clear IH. induction acc as [|[k' v'] acc IHa]; simpl in *.
      * reflexivity.
      * split_bools. apply orb_false_iff. split; [|now apply IHa].
        rewrite existsb_app in *.
        match goal with H : _ || _ = false |- _ =>
          apply orb_false_iff in H; destruct H as [_ H] end.
        simpl in *.
        match goal with H : _ || _ = false |- _ =>
          apply orb_false_iff in H; destruct H as [H _] end.
        assumption.
Qed.

Lemma of_series_distinct (pairs : Dict.t) :
  distinct_keys (map fst pairs) = true -> Dict.of_series pairs = pairs.
Proof.
  intros H. unfold Dict.of_series.
  now rewrite (of_series_distinct_acc pairs []).
Qed.

Lemma dict_get_self (rows : list ChannelSummary) (w : ChannelSummary -> float64)
  (r : ChannelSummary) :
  well_formed_report rows = true -> In r rows ->
  Dict.get (map (fun r => (channel r, w r)) rows) (channel r) = Some (w r).
Proof.
  unfold well_formed_report.
  induction rows as [|r0 rows IH]; [simpl; tauto|].
  intros Hwf Hin.
  change (map channel (r0 :: rows)) with (channel r0 :: map channel rows) in Hwf.
  cbn [map Dict.get fst snd]. destruct Hin as [-> | Hin].
  - rewrite cell_eqb_refl; [reflexivity|].
    eapply distinct_keys_notna; [exact Hwf | now left].
  - rewrite (distinct_keys_head _ (channel r) _ Hwf) by now apply in_map.
    apply IH; [|exact Hin]. eapply distinct_keys_tail, Hwf.
Qed.

(* ------------------------------------------------------------------ *)
(** ** The steps of [simulate_reallocation] *)

Lemma mapM_rows (by_df rows : list ChannelSummary)
  (col f : ChannelSummary -> float64) :
  well_formed_report by_df = true ->
  incl rows by_df ->
  mapM (fun cw => r <- loc by_df (fst cw) ;; Return (mul (col r) (snd cw)))
       (map (fun r => (channel r, f r)) rows) =
  Return (map (fun r => mul (col r) (f r)) rows).
Proof.
  intros Hwf. induction rows as [|r rows IH]; intros Hincl; simpl.
  - reflexivity.
  - rewrite (loc_self by_df r Hwf) by (apply Hincl; now left). simpl.
    rewrite IH; [reflexivity|]. intros x Hx. apply Hincl. now right.
Qed.

(** The current blend, for any column. *)
Lemma current_sum_value (by_df : list ChannelSummary)
  (col : ChannelSummary -> float64) :
  well_formed_report by_df = true ->
  current_sum by_df col (current_weights by_df) =
  Return (revenue_share_blend col by_df).
Proof.
  intros Hwf. unfold current_sum, weighted_sum, current_weights.
  rewrite of_series_distinct by (rewrite map_map; exact Hwf).
  rewrite map_map.
  rewrite (map_ext_in _
             (fun r => (channel r, div (revenue_share_pct r) (of_Z 100)))).
  - rewrite (mapM_rows by_df by_df col
               (fun r => div (revenue_share_pct r) (of_Z 100)) Hwf (incl_refl _)).
    reflexivity.
  - intros r Hr. unfold Dict.get_default.
    now rewrite (dict_get_self by_df
                   (fun r => div (revenue_share_pct r) (of_Z 100)) r Hwf Hr).
Qed.

(** What a returned [delta] is made of. *)
Lemma simulate_inv (by_df : list ChannelSummary) (text txt : string) (d : Delta) :
  simulate_reallocation (Some by_df) text = Return (txt, Some d) ->
  exists members total weights new_roi new_cltv cur_roi cur_cltv,
    by_df <> [] /\
    Json.loads (allocation_text text) = Some (JObj members) /\
    sum_values (map snd members) = Return total /\
    normalized_weights members (if truthy total then total else Finite 1) =
    Return weights /\
    weighted_sum by_df avg_roi (with_defaults weights (map channel by_df)) =
    Return new_roi /\
    weighted_sum by_df avg_cltv (with_defaults weights (map channel by_df)) =
    Return new_cltv /\
    current_sum by_df avg_roi (current_weights by_df) = Return cur_roi /\
    current_sum by_df avg_cltv (current_weights by_df) = Return cur_cltv /\
    d = {| current_weighted_roi := round2 cur_roi;
           new_weighted_roi := round2 new_roi;
           roi_change_pct := round2 (pct_change new_roi cur_roi);
           current_weighted_cltv := round2 cur_cltv;
           new_weighted_cltv := round2 new_cltv;
           cltv_change_pct := round2 (pct_change new_cltv cur_cltv) |} /\
    txt = render_text d.
Proof.
  unfold simulate_reallocation, allocation_text. intros H.
  destruct (Json.loads _) as [alloc|] eqn:Hloads; [|discriminate].
  destruct by_df as [|r0 by_df]; [discriminate|].
  destruct alloc; try discriminate. simpl values in H. simpl items in H.
  cbn [bind] in H.
  repeat inv_bind H.
  inversion H; subst. clear H.
  eexists members, _, _, _, _, _, _.
  repeat split; try eassumption; try reflexivity; discriminate.
Qed.

(** When every step returns, so does the simulation. *)
Lemma simulate_run (by_df : list ChannelSummary) (text : string)
  (members : list (string * json)) (total : float64) (weights : Dict.t)
  (new_roi new_cltv : float64) :
  by_df <> [] ->
  well_formed_report by_df = true ->
  Json.loads (allocation_text text) = Some (JObj members) ->
  sum_values (map snd members) = Return total ->
  normalized_weights members (if truthy total then total else Finite 1) =
  Return weights ->
  weighted_sum by_df avg_roi (with_defaults weights (map channel by_df)) =
  Return new_roi ->
  weighted_sum by_df avg_cltv (with_defaults weights (map channel by_df)) =
  Return new_cltv ->
  let d := {| current_weighted_roi := round2 (revenue_share_blend avg_roi by_df);
              new_weighted_roi := round2 new_roi;
              roi_change_pct :=
                round2 (pct_change new_roi (revenue_share_blend avg_roi by_df));
              current_weighted_cltv := round2 (revenue_share_blend avg_cltv by_df);
              new_weighted_cltv := round2 new_cltv;
              cltv_change_pct :=
                round2 (pct_change new_cltv (revenue_share_blend avg_cltv by_df)) |} in
  simulate_reallocation (Some by_df) text = Return (render_text d, Some d).
Proof.
  intros Hne Hwf Hloads Hsum Hnorm Hroi Hcltv d.
  unfold simulate_reallocation. unfold allocation_text in Hloads.
  rewrite Hloads. destruct by_df as [|r0 by_df]; [contradiction|].
  simpl values. simpl items. cbn [bind].
  rewrite Hsum. cbn [bind]. rewrite Hnorm. cbn [bind].
  rewrite Hroi. cbn [bind]. rewrite Hcltv. cbn [bind].
  rewrite !current_sum_value by exact Hwf. reflexivity.
Qed.

(* ------------------------------------------------------------------ *)
(** ** Allocations *)

Lemma Qred_zero (q : Q) : (q == 0)%Q -> Qred q = 0%Q.
Proof. intros H. now rewrite (Qred_complete q 0 H). Qed.

Lemma fold_add_zeros (xs : list float64) :
  Forall (fun x => x = Finite 0) xs -> fold_left add xs (Finite 0) = Finite 0.
Proof.
  induction 1 as [|x xs -> _ IH]; simpl; [reflexivity | exact IH].
Qed.

Lemma number_of_zero (v : json) :
  is_zero_number v = true -> exists q, number_of v = Return (Finite q) /\ (q == 0)%Q.
Proof.
  destruct v as [|b|x|s|l|m]; simpl; try discriminate.
  - destruct b; [discriminate|]. intros _. exists 0%Q. split; reflexivity.
  - destruct x as [q| | |]; try discriminate.
    intros H. to_Q. eauto.
Qed.

Lemma sum_values_zeros (members : list (string * json)) :
  forallb (fun kv => is_zero_number (snd kv)) members = true ->
  sum_values (map snd members) = Return (Finite 0).
Proof.
  intros H. unfold sum_values.
  assert (E : exists xs, mapM number_of (map snd members) = Return xs /\
                         Forall (fun x => exists q, x = Finite q /\ (q == 0)%Q) xs).
  { induction members as [|[k v] members IH]; simpl.
    - exists []. split; [reflexivity | constructor].
    - simpl in H. split_bools.
      destruct (number_of_zero v) as (q & -> & Hq); [assumption|].
      destruct IH as (xs & -> & Hxs); [assumption|].
      exists (Finite q :: xs). split; [reflexivity|]. constructor; eauto. }
  destruct E as (xs & -> & Hxs). simpl. f_equal.
  unfold Float.sum.
  induction Hxs as [|x xs (q & -> & Hq) _ IH]; [reflexivity|].
  cbn [fold_left add].
  rewrite Qred_zero by (rewrite Hq; reflexivity). exact IH.
Qed.

Lemma truediv_nonzero (x s : float64) :
  truthy s = true -> truediv x s = Return (div x s).
Proof.
  destruct s as [q| | |]; simpl; try reflexivity.
  intros H. apply negb_true_iff in H. now rewrite H.
Qed.


Lemma normalized_weights_zeros (members : list (string * json)) :
  forallb (fun kv => is_zero_number (snd kv)) members = true ->
  normalized_weights members (Finite 1) =
  Return (map (fun kv => (Str (fst kv), Finite 0)) members).
Proof.
  unfold normalized_weights.
  induction members as [|[k v] members IH]; intros H; [reflexivity|].
  simpl in H. split_bools.
  destruct (number_of_zero v) as (q & Hv & Hq); [assumption|].
  cbn [mapM map bind fst snd]. rewrite Hv. cbn [bind].
  rewrite truediv_nonzero by reflexivity. cbn [bind].
  rewrite IH by assumption. cbn [bind div].
  replace (Qeq_bool 1 0) with false by reflexivity.
  rewrite Qred_zero; [reflexivity|]. rewrite Hq. reflexivity.
Qed.

Lemma with_defaults_Forall (P : cell * float64 -> Prop) (index : list cell)
  (weights : Dict.t) :
  Forall P weights ->
  (forall ch, In ch index -> P (ch, Finite 0)) ->
  Forall P (with_defaults weights index).
Proof.
  unfold with_defaults. revert weights.
  induction index as [|ch index IH]; intros weights Hw Hi; simpl; [exact Hw|].
  apply IH.
  - unfold Dict.setdefault. destruct (Dict.get weights ch); [exact Hw|].
    apply Forall_app. split; [exact Hw|]. constructor; [|constructor].
    apply Hi. now left.
  - intros c Hc. apply Hi. now right.
Qed.


Lemma in_report_self (by_df : list ChannelSummary) (r : ChannelSummary) :
  well_formed_report by_df = true -> In r by_df ->
  in_report by_df (channel r) = true.
Proof.
  intros Hwf Hin. unfold in_report. apply existsb_exists. exists r.
  split; [exact Hin|]. apply cell_eqb_refl.
  eapply distinct_keys_notna; [exact Hwf | now apply in_map].
Qed.

(** Weights that are all zero project zero from finite figures. *)
Lemma weighted_sum_zeros (by_df : list ChannelSummary)
  (col : ChannelSummary -> float64) (weights : Dict.t) :
  (forall r, In r by_df -> isfinite (col r) = true) ->
  Forall (fun cw => snd cw = Finite 0 /\ in_report by_df (fst cw) = true) weights ->
  weighted_sum by_df col weights = Return (Finite 0).
Proof.
  intros Hfin Hw. unfold weighted_sum.
  assert (E : exists terms,
             mapM (fun cw => r <- loc by_df (fst cw) ;; Return (mul (col r) (snd cw)))
                  weights = Return terms /\
             Forall (fun x => x = Finite 0) terms).
  { induction Hw as [|[k w] weights [Hz Hk] _ IH].
    - exists []. split; [reflexivity | constructor].
    - simpl in Hz, Hk. subst w. cbn [mapM fst snd].
      destruct (loc_known by_df k Hk) as (r & Hr). rewrite Hr. cbn [bind].
      destruct IH as (terms & -> & Hterms). cbn [bind].
      destruct (loc_In by_df k r Hr) as [Hin _].
      destruct (isfinite_Finite _ (Hfin r Hin)) as (a & ->). cbn [mul].
      rewrite Qred_zero by lra.
      eexists. split; [reflexivity|]. constructor; [reflexivity | exact Hterms]. }
  destruct E as (terms & -> & Hterms). simpl.
  unfold Float.sum. now rewrite fold_add_zeros.
Qed.



(* ------------------------------------------------------------------ *)
(** ** Properties of the simulator *)

Lemma scenario_computed :
  _compute_metrics (table_of scenario_records) =
  Return (enriched (table_of scenario_records) scenario_records,
          scenario_report, scenario_meta).
Proof. vm_compute. reflexivity. Qed.

Lemma finite_kpis_spec (by_df : list ChannelSummary) (r : ChannelSummary) :
  finite_kpis by_df = true -> In r by_df ->
  isfinite (avg_roi r) = true /\ isfinite (avg_cltv r) = true.
Proof.
  unfold finite_kpis. rewrite forallb_forall. intros H Hin.
  specialize (H r Hin). now apply andb_true_iff in H.
Qed.

(** C7, as the code has it.  On a non-empty, well-formed report whose
    [avg_roi] and [avg_cltv] are all finite, an allocation that is empty,
    or whose values are all zero and whose keys are all channels of the
    report, sums to 0, so that the divisor becomes 1.0, and the simulation
    returns [new_weighted_roi = 0.00] and [new_weighted_cltv = 0.00]. *)
Theorem zero_allocation_projects_zero (by_df : list ChannelSummary)
  (text : string) (members : list (string * json)) :
  by_df <> [] ->
  well_formed_report by_df = true ->
  finite_kpis by_df = true ->
  Json.loads (allocation_text text) = Some (JObj members) ->
  forallb (fun kv => is_zero_number (snd kv)) members = true ->
  forallb (fun kv => in_report by_df (Str (fst kv))) members = true ->
  sum_values (map snd members) = Return (Finite 0) /\
  (if truthy (Finite 0) then Finite 0 else Finite 1) = Finite 1 /\
  exists txt d,
    simulate_reallocation (Some by_df) text = Return (txt, Some d) /\
    new_weighted_roi d = Finite 0 /\
    new_weighted_cltv d = Finite 0.
Proof.
  intros Hne Hwf Hfin Hloads Hzero Hkeys.
  pose proof (sum_values_zeros members Hzero) as Hsum.
  split; [exact Hsum|]. split; [reflexivity|].
  assert (Hw : Forall (fun cw => snd cw = Finite 0 /\ in_report by_df (fst cw) = true)
                 (with_defaults (map (fun kv => (Str (fst kv), Finite 0)) members)
                                (map channel by_df))).
  { apply with_defaults_Forall.
    - apply Forall_map, Forall_forall. intros kv Hin. simpl.
      rewrite forallb_forall in Hkeys. auto.
    - intros ch Hch. simpl. apply in_map_iff in Hch.
      destruct Hch as (r & <- & Hr). split; [reflexivity|].
      now apply in_report_self. }
  eexists _, _. split.
  - eapply (simulate_run by_df text members (Finite 0)); try eassumption.
    + exact (normalized_weights_zeros members Hzero).
    + apply weighted_sum_zeros; [|exact Hw].
      intros r Hr. now apply (finite_kpis_spec by_df r Hfin Hr).
    + apply weighted_sum_zeros; [|exact Hw].
      intros r Hr. now apply (finite_kpis_spec by_df r Hfin Hr).
  - split; reflexivity.
Qed.

Lemma zero_allocation_projects_zero_witness :
  scenario_report <> [] /\
  well_formed_report scenario_report = true /\
  finite_kpis scenario_report = true /\
  Json.loads (allocation_text EmptyString) = Some (JObj []) /\
  exists txt d,
    simulate_reallocation (Some scenario_report) EmptyString = Return (txt, Some d) /\
    new_weighted_roi d = Finite 0 /\
    new_weighted_cltv d = Finite 0.
Proof.
  assert (H1 : scenario_report <> []) by discriminate.
  assert (H2 : well_formed_report scenario_report = true) by reflexivity.
  assert (H3 : finite_kpis scenario_report = true) by reflexivity.
  assert (H4 : Json.loads (allocation_text EmptyString) = Some (JObj [])) by reflexivity.
  repeat (split; [assumption|]).
  exact (proj2 (proj2 (zero_allocation_projects_zero scenario_report EmptyString []
                         H1 H2 H3 H4 eq_refl eq_refl))).
Defined.

(** The same on an allocation that spells out its zeros. *)
Lemma zero_allocation_example :
  exists txt d,
    simulate_reallocation (Some scenario_report) zero_allocation =
    Return (txt, Some d) /\
    new_weighted_roi d = Finite 0 /\ new_weighted_cltv d = Finite 0.
Proof.
  eexists _, _. split; [vm_compute; reflexivity|]. split; reflexivity.
Qed.

(** C7, as stated, fails.  A customer acquired at no cost gives its channel
    an infinite [avg_roi] and [avg_cltv]; on that report the empty
    allocation projects [nan], not 0.00. *)
Lemma zero_allocation_on_infinite_report :
  exists df' by_channel meta txt d,
    _compute_metrics (table_of free_customer_records) =
    Return (df', by_channel, meta) /\
    by_channel <> [] /\
    map avg_roi by_channel = [PosInf] /\
    simulate_reallocation (Some by_channel) "{}" = Return (txt, Some d) /\
    new_weighted_roi d = NaN /\
    new_weighted_cltv d = NaN.
Proof.
  eexists _, _, _, _, _. split; [vm_compute; reflexivity|].
  split; [discriminate|]. split; [reflexivity|].
  split; [vm_compute; reflexivity|]. split; reflexivity.
Qed.

(** An allocation of zero to a channel that the report lacks does not
    project zero either: it raises. *)
Lemma zero_allocation_unknown_channel :
  Json.loads zero_ghost_allocation = Some (JObj [("ghost", JNum (Finite 0))]) /\
  simulate_reallocation (Some scenario_report) zero_ghost_allocation =
  Raise (KeyError (Str "ghost")).
Proof. split; vm_compute; reflexivity. Qed.

(** The empty allocation runs on every non-empty, well-formed report. *)
Lemma empty_allocation_runs (by_df : list ChannelSummary) :
  by_df <> [] -> well_formed_report by_df = true ->
  exists txt d, simulate_reallocation (Some by_df) "{}" = Return (txt, Some d).
Proof.
  intros Hne Hwf.
  assert (Hw : forall col,
             exists x, weighted_sum by_df col
                         (with_defaults [] (map channel by_df)) = Return x).
  { intros col. unfold weighted_sum.
    assert (Hk : Forall (fun cw => in_report by_df (fst cw) = true)
                   (with_defaults [] (map channel by_df))).
    { apply with_defaults_Forall; [constructor|].
      intros ch Hch. apply in_map_iff in Hch. destruct Hch as (r & <- & Hr).
      now apply in_report_self. }
    induction Hk as [|[k w] ws Hk _ IH]; simpl; [eauto|].
    destruct (loc_known by_df k Hk) as (r & ->). simpl.
    destruct (mapM _ ws); simpl in *; [eauto|].
    destruct IH as (x & Hx). discriminate. }
  destruct (Hw avg_roi) as (new_roi & Hroi).
  destruct (Hw avg_cltv) as (new_cltv & Hcltv).
  eexists _, _.
  eapply (simulate_run by_df "{}" [] (Finite 0) []); try eassumption; reflexivity.
Qed.

(** C2.  On a non-empty, well-formed report, whenever the simulation
    returns a result its [current_weighted_roi] is the sum over the rows of
    the report of [avg_roi] times [revenue_share_% / 100], and its
    [current_weighted_cltv] the same sum for [avg_cltv], both rounded to two
    decimals like every field of the result; the empty allocation is one
    input on which it does return.  This baseline is not the mean over the
    rows of the table that the summary reports: in the end-to-end scenario
    the blend is 1.50 and the summary has 1.25. *)
Theorem current_baseline_is_revenue_share_blend (by_df : list ChannelSummary) :
  by_df <> [] ->
  well_formed_report by_df = true ->
  (forall text txt d,
     simulate_reallocation (Some by_df) text = Return (txt, Some d) ->
     current_weighted_roi d = round2 (revenue_share_blend avg_roi by_df) /\
     current_weighted_cltv d = round2 (revenue_share_blend avg_cltv by_df)) /\
  (exists txt d, simulate_reallocation (Some by_df) "{}" = Return (txt, Some d)) /\
  (exists txt d,
     _compute_metrics (table_of scenario_records) =
     Return (enriched (table_of scenario_records) scenario_records,
             scenario_report, scenario_meta) /\
     simulate_reallocation (Some scenario_report) "{}" = Return (txt, Some d) /\
     current_weighted_roi d = Finite (3 # 2) /\
     meta_current_weighted_roi scenario_meta = Finite (5 # 4)).
Proof.
  intros Hne Hwf. split; [|split].
  - intros text txt d H.
    destruct (simulate_inv by_df text txt d H)
      as (members & total & weights & new_roi & new_cltv & cur_roi & cur_cltv &
          _ & _ & _ & _ & _ & _ & Hcr & Hcc & -> & _).
    rewrite current_sum_value in Hcr, Hcc by exact Hwf.
    inversion Hcr; inversion Hcc; subst. split; reflexivity.
  - now apply empty_allocation_runs.
  - eexists _, _. split; [exact scenario_computed|].
    split; [vm_compute; reflexivity|]. split; reflexivity.
Qed.

Lemma current_baseline_is_revenue_share_blend_witness :
  scenario_report <> [] /\
  well_formed_report scenario_report = true /\
  forall text txt d,
    simulate_reallocation (Some scenario_report) text = Return (txt, Some d) ->
    current_weighted_roi d = round2 (revenue_share_blend avg_roi scenario_report) /\
    current_weighted_cltv d = round2 (revenue_share_blend avg_cltv scenario_report).
Proof.
  assert (H1 : scenario_report <> []) by discriminate.
  assert (H2 : well_formed_report scenario_report = true) by reflexivity.
  split; [exact H1|]. split; [exact H2|].
  exact (proj1 (current_baseline_is_revenue_share_blend scenario_report H1 H2)).
Defined.

(** C4.  The code does not ignore a channel that only the allocation
    names: on the report of the end-to-end scenario, the allocation
    [{"email": 60, "ghost": 40}] parses, and the projection raises
    [KeyError] for [ghost]. *)
Theorem unknown_channel_raises_key_error :
  Json.loads ghost_allocation =
  Some (JObj [("email", JNum (Finite 60)); ("ghost", JNum (Finite 40))]) /\
  in_report scenario_report (Str "ghost") = false /\
  simulate_reallocation (Some scenario_report) ghost_allocation =
  Raise (KeyError (Str "ghost")).
Proof. repeat split; vm_compute; reflexivity. Qed.





(** A mapping whose value is text raises as well, with [TypeError]. *)
Lemma text_valued_mapping_raises :
  Json.loads (allocation_text text_valued_allocation) =
  Some (JObj [("email", JStr "all")]) /\
  ~ parses_as_mapping text_valued_allocation /\
  simulate_reallocation (Some scenario_report) text_valued_allocation =
  Raise TypeError.
Proof.
  split; [vm_compute; reflexivity|]. split.
  - intros (members & Hloads & Hnum). vm_compute in Hloads.
    inversion Hloads; subst. discriminate.
  - vm_compute. reflexivity.
Qed.

(* ------------------------------------------------------------------ *)
(** ** Rounding *)

Lemma rint_nearest (q : Q) :
  (Qabs (inject_Z (rint q) - q) <= 1 # 2)%Q.
Proof.
  unfold rint. pose proof (Qfloor_le q) as Hlo. pose proof (Qlt_floor q) as Hhi.
  rewrite inject_Z_plus in Hhi.
  change (inject_Z 1) with 1%Q in Hhi.
  apply Qabs_Qle_condition.
  destruct (Qcompare (q - inject_Z (Qfloor q)) (1 # 2)) eqn:E.
  - apply Qeq_alt in E. destruct (Z.even (Qfloor q)).
    + split; lra.
    + rewrite inject_Z_plus. change (inject_Z 1) with 1%Q. split; lra.
  - apply Qlt_alt in E. split; lra.
  - apply Qgt_alt in E. rewrite inject_Z_plus. change (inject_Z 1) with 1%Q.
    split; lra.
Qed.

(** [round2] keeps two decimals: a finite value goes to a multiple of 1/100
    at distance at most 1/200, and [inf] and [nan] stay as they are. *)
Lemma round2_two_decimals (x : float64) :
  match x with
  | Finite q =>
      exists k, round2 x = Finite (Qred (k # 100)) /\
                (Qabs ((k # 100) - q) <= 1 # 200)%Q
  | _ => round2 x = x
  end.
Proof.
  destruct x as [q| | |]; try reflexivity.
  exists (rint (q * 100)). split; [reflexivity|].
  pose proof (rint_nearest (q * 100)) as H.
  apply Qabs_Qle_condition in H. apply Qabs_Qle_condition.
  assert (E : (rint (q * 100) # 100 == inject_Z (rint (q * 100)) / 100)%Q).
  { unfold Qeq, inject_Z, Qdiv, Qmult, Qinv. simpl. lia. }
  rewrite E. destruct H as [H1 H2].
  split.
  - apply Qle_minus_iff. apply Qle_minus_iff in H1.
    setoid_replace (inject_Z (rint (q * 100)) / 100 - q + - - (1 # 200))%Q
      with ((inject_Z (rint (q * 100)) - q * 100 + - - (1 # 2)) / 100)%Q
      by field.
    apply Qle_shift_div_l; [reflexivity | lra].
  - apply Qle_minus_iff. apply Qle_minus_iff in H2.
    setoid_replace ((1 # 200) + - (inject_Z (rint (q * 100)) / 100 - q))%Q
      with (((1 # 2) + - (inject_Z (rint (q * 100)) - q * 100)) / 100)%Q
      by field.
    apply Qle_shift_div_l; [reflexivity | lra].
Qed.

(** C9.  In every result that the simulation returns, [roi_change_%] is
    [100 * (new - current) / (current + 1e-9)] computed from the two
    weighted sums for [avg_roi] before they are rounded, [cltv_change_%] is
    the same for [avg_cltv], and each of the six fields is [round(., 2)] of
    its value, which keeps two decimals. *)
Theorem changes_use_epsilon_and_fields_are_rounded
  (by_df : option (list ChannelSummary)) (text txt : string) (d : Delta) :
  simulate_reallocation by_df text = Return (txt, Some d) ->
  exists report weights new_roi new_cltv cur_roi cur_cltv,
    by_df = Some report /\
    weighted_sum report avg_roi weights = Return new_roi /\
    weighted_sum report avg_cltv weights = Return new_cltv /\
    current_sum report avg_roi (current_weights report) = Return cur_roi /\
    current_sum report avg_cltv (current_weights report) = Return cur_cltv /\
    roi_change_pct d =
      round2 (div (mul (of_Z 100) (sub new_roi cur_roi))
                  (add cur_roi (Finite (1 # 1000000000)))) /\
    cltv_change_pct d =
      round2 (div (mul (of_Z 100) (sub new_cltv cur_cltv))
                  (add cur_cltv (Finite (1 # 1000000000)))) /\
    current_weighted_roi d = round2 cur_roi /\
    new_weighted_roi d = round2 new_roi /\
    current_weighted_cltv d = round2 cur_cltv /\
    new_weighted_cltv d = round2 new_cltv /\
    (forall q, exists k, round2 (Finite q) = Finite (Qred (k # 100)) /\
                         (Qabs ((k # 100) - q) <= 1 # 200)%Q).
Proof.
  intros H. destruct by_df as [report|].
  - destruct (simulate_inv report text txt d H)
      as (members & total & weights & new_roi & new_cltv & cur_roi & cur_cltv &
          _ & _ & _ & _ & Hnr & Hnc & Hcr & Hcc & -> & _).
    exists report, (with_defaults weights (map channel report)),
           new_roi, new_cltv, cur_roi, cur_cltv.
    repeat (split; [first [reflexivity | assumption]|]).
    intros q. exact (round2_two_decimals (Finite q)).
  - unfold simulate_reallocation in H.
    destruct (Json.loads _); discriminate.
Qed.

Lemma changes_use_epsilon_and_fields_are_rounded_witness :
  exists txt d,
    simulate_reallocation (Some scenario_report) email_only_allocation =
    Return (txt, Some d) /\
    current_weighted_roi d = Finite (3 # 2) /\
    new_weighted_roi d = Finite 2 /\
    roi_change_pct d = Finite (3333 # 100) /\
    exists new_roi cur_roi,
      roi_change_pct d =
      round2 (div (mul (of_Z 100) (sub new_roi cur_roi))
                  (add cur_roi (Finite (1 # 1000000000)))) /\
      current_weighted_roi d = round2 cur_roi /\
      new_weighted_roi d = round2 new_roi.
Proof.
  assert (H : exists txt d,
             simulate_reallocation (Some scenario_report) email_only_allocation =
             Return (txt, Some d) /\
             current_weighted_roi d = Finite (3 # 2) /\
             new_weighted_roi d = Finite 2 /\
             roi_change_pct d = Finite (3333 # 100)).
  { eexists _, _. split; [vm_compute; reflexivity|]. repeat split. }
  destruct H as (txt & d & Hsim & H1 & H2 & H3).
  exists txt, d. repeat (split; [assumption|]).
  destruct (changes_use_epsilon_and_fields_are_rounded _ _ _ _ Hsim)
    as (report & weights & new_roi & new_cltv & cur_roi & cur_cltv &
        _ & _ & _ & _ & _ & Hr & _ & Hc & Hn & _).
  exists new_roi, cur_roi. auto.
Defined.

(* ================================================================== *)
(** * Further properties of the metrics engine *)

(** What a returned triple is made of. *)
Lemma compute_metrics_inv (df df' : DataFrame)
  (by_channel : list ChannelSummary) (meta : SummaryStats) :
  _compute_metrics df = Return (df', by_channel, meta) ->
  exists revenue_s cost_s conv_s channel_col ids revenue_f cost_f conv_f,
    missing_cols df = [] /\
    lookup_col df "revenue" = Some revenue_s /\
    lookup_col df "cost" = Some cost_s /\
    lookup_col df "conversion_rate" = Some conv_s /\
    lookup_col df "channel" = Some channel_col /\
    lookup_col df "customer_id" = Some ids /\
    as_floats revenue_s = Return revenue_f /\
    as_floats cost_s = Return cost_f /\
    as_floats conv_s = Return conv_f /\
    let roi := zip_with div revenue_f cost_f in
    let cltv :=
      zip_with div (zip_with mul (zip_with sub revenue_f cost_f) conv_f) cost_f in
    df' = setitem (setitem df "roi" (of_floats roi)) "cltv" (of_floats cltv) /\
    by_channel =
      with_revenue_share
        (sort_values_desc g_avg_cltv
           (groupby_agg channel_col ids cost_f conv_f revenue_f roi cltv)) /\
    meta = {| rows := len df';
              channels := nunique channel_col;
              meta_current_weighted_roi := nanmean roi;
              current_avg_cltv := nanmean cltv |}.
Proof.
  unfold _compute_metrics, numeric_column, getitem, _ensure_cols. intros H.
  destruct (missing_cols df) eqn:Hmiss; [|discriminate]. cbn [bind] in H.
  destruct (lookup_col df "revenue") as [revenue_s|] eqn:Hrev; [|discriminate].
  cbn [bind] in H.
  destruct (as_floats revenue_s) as [revenue_f|] eqn:Erev; [|discriminate].
  cbn [bind] in H.
  destruct (lookup_col df "cost") as [cost_s|] eqn:Hcost; [|discriminate].
  cbn [bind] in H.
  destruct (as_floats cost_s) as [cost_f|] eqn:Ecost; [|discriminate].
  cbn [bind] in H.
  destruct (lookup_col df "conversion_rate") as [conv_s|] eqn:Hconv; [|discriminate].
  cbn [bind] in H.
  destruct (as_floats conv_s) as [conv_f|] eqn:Econv; [|discriminate].
  cbn [bind] in H.
  rewrite !lookup_col_setitem_other in H by discriminate.
  destruct (lookup_col df "channel") as [channel_col|] eqn:Hch; [|discriminate].
  cbn [bind] in H.
  destruct (lookup_col df "customer_id") as [ids|] eqn:Hid; [|discriminate].
  cbn [bind] in H.
  inversion H; subst. clear H.
  exists revenue_s, cost_s, conv_s, channel_col, ids, revenue_f, cost_f, conv_f.
  repeat split; reflexivity || assumption.
Qed.

Lemma in_report_of_keys (by_df : list ChannelSummary) (k c : cell) :
  In k (map channel by_df) -> Cell.eqb k c = true -> in_report by_df c = true.
Proof.
  intros Hin Heq. apply in_map_iff in Hin. destruct Hin as (r & <- & Hr).
  unfold in_report. apply existsb_exists. eauto.
Qed.

(** X1.  Whenever [_compute_metrics] returns, the report has exactly one
    row per distinct channel value that is not missing: its channels are
    the group keys of the channel column in some order, no two rows share a
    channel, every channel value of the input has its row, and the summary's
    [channels] is the number of rows of the report. *)
Theorem report_has_one_row_per_channel (df df' : DataFrame)
  (by_channel : list ChannelSummary) (meta : SummaryStats) :
  _compute_metrics df = Return (df', by_channel, meta) ->
  exists channel_col,
    lookup_col df "channel" = Some channel_col /\
    well_formed_report by_channel = true /\
    Permutation (map channel by_channel) (group_keys channel_col) /\
    (forall row, In row by_channel -> In (channel row) channel_col) /\
    (forall c, In c channel_col -> Cell.notna c = true ->
               in_report by_channel c = true) /\
    channels meta = List.length by_channel.
Proof.
  intros H. pose proof (compute_report_well_formed _ _ _ _ H) as Hwf.
  destruct (compute_metrics_inv _ _ _ _ H)
    as (revenue_s & cost_s & conv_s & channel_col & ids & revenue_f & cost_f &
        conv_f & _ & _ & _ & _ & Hch & _ & _ & _ & _ & _ & Hby & Hmeta).
  exists channel_col. split; [exact Hch|]. split; [exact Hwf|].
  assert (Hperm : Permutation (map channel by_channel) (group_keys channel_col)).
  { rewrite Hby. unfold with_revenue_share. rewrite map_map. simpl.
    change (fun x : GroupAgg => g_channel x) with g_channel.
    rewrite (Permutation_map g_channel (sort_values_desc_Permutation g_avg_cltv _)).
    now rewrite groupby_agg_channels. }
  split; [exact Hperm|]. split; [|split].
  - intros row Hrow.
    assert (Hk : In (channel row) (group_keys channel_col))
      by (apply (Permutation_in _ Hperm); now apply in_map).
    now apply group_keys_In in Hk.
  - intros c Hc Hna.
    destruct (group_keys_cover channel_col c Hc Hna) as (k & Hk & Heq).
    apply (in_report_of_keys by_channel k c); [|exact Heq].
    apply (Permutation_in _ (Permutation_sym Hperm)), Hk.
  - rewrite Hmeta. simpl. unfold nunique.
    rewrite <- (Permutation_length Hperm). now rewrite length_map.
Qed.

Lemma report_has_one_row_per_channel_witness :
  exists df' by_channel meta,
    _compute_metrics (table_of three_records) = Return (df', by_channel, meta) /\
    well_formed_report by_channel = true /\
    Permutation (map channel by_channel) [Str "email"; Str "social"] /\
    channels meta = List.length by_channel.
Proof.
  pose proof (compute_metrics_rows (table_of three_records) three_records
                (rows_of_table_of three_records)) as H.
  eexists _, _, _. split; [exact H|].
  destruct (report_has_one_row_per_channel _ _ _ _ H)
    as (channel_col & Hch & Hwf & Hperm & _ & _ & Hn).
  split; [exact Hwf|]. split; [|exact Hn].
  inversion Hch; subst. exact Hperm.
Defined.

Lemma in_columns_lookup (df : DataFrame) (c : string) :
  existsb (String.eqb c) (columns df) =
  match lookup_col df c with Some _ => true | None => false end.
Proof.
  induction df as [|[name s] df IH]; simpl; [reflexivity|].
  rewrite String.eqb_sym. destruct (String.eqb name c); [reflexivity | exact IH].
Qed.

Lemma missing_cols_same (df1 df2 : DataFrame) :
  same_required df1 df2 -> missing_cols df1 = missing_cols df2.
Proof.
  unfold same_required, missing_cols. generalize REQUIRED_COLS.
  intros cols H. induction cols as [|c cols IH]; simpl; [reflexivity|].
  rewrite !in_columns_lookup, (H c) by (now left).
  rewrite IH; [reflexivity|]. intros c' Hc'. apply H. now right.
Qed.

(** X2.  The report depends on the five required columns only: two frames
    that agree on them, whatever other columns they carry and in whatever
    order their columns come, get the same channel report, the same channel
    count and means in the summary, or fail with the same exception. *)
Theorem report_depends_on_required_columns_only (df1 df2 : DataFrame) :
  same_required df1 df2 ->
  same_report (_compute_metrics df1) (_compute_metrics df2).
Proof.
  intros H. pose proof (missing_cols_same df1 df2 H) as Hmiss.
  assert (Hl : forall c, In c REQUIRED_COLS -> lookup_col df1 c = lookup_col df2 c)
    by exact H.
  unfold same_report, _compute_metrics, numeric_column, getitem, _ensure_cols.
  rewrite Hmiss. destruct (missing_cols df2); [|reflexivity]. cbn [bind].
  rewrite (Hl "revenue") by (simpl; tauto).
  destruct (lookup_col df2 "revenue") as [rs|]; [|reflexivity]. cbn [bind].
  destruct (as_floats rs); [|reflexivity]. cbn [bind].
  rewrite (Hl "cost") by (simpl; tauto).
  destruct (lookup_col df2 "cost") as [cs|]; [|reflexivity]. cbn [bind].
  destruct (as_floats cs); [|reflexivity]. cbn [bind].
  rewrite (Hl "conversion_rate") by (simpl; tauto).
  destruct (lookup_col df2 "conversion_rate") as [ps|]; [|reflexivity]. cbn [bind].
  destruct (as_floats ps); [|reflexivity]. cbn [bind].
  rewrite !lookup_col_setitem_other by discriminate.
  rewrite (Hl "channel") by (simpl; tauto).
  destruct (lookup_col df2 "channel") as [ch|]; [|reflexivity]. cbn [bind].
  rewrite ?lookup_col_setitem_other by discriminate.
  rewrite (Hl "customer_id") by (simpl; tauto).
  destruct (lookup_col df2 "customer_id") as [ids|]; [|reflexivity]. cbn [bind].
  repeat split.
Qed.

Lemma report_depends_on_required_columns_only_witness :
  same_required (table_of scenario_records) scenario_table_reordered /\
  same_report (_compute_metrics (table_of scenario_records))
              (_compute_metrics scenario_table_reordered) /\
  exists df', _compute_metrics scenario_table_reordered =
              Return (df', scenario_report, scenario_meta).
Proof.
  assert (H : same_required (table_of scenario_records) scenario_table_reordered).
  { intros c Hc. simpl in Hc.
    destruct Hc as [<-|[<-|[<-|[<-|[<-|[]]]]]]; reflexivity. }
  split; [exact H|].
  split; [exact (report_depends_on_required_columns_only _ _ H)|].
  eexists. vm_compute. reflexivity.
Defined.

(** X3.  Whenever [_compute_metrics] returns, the enriched frame keeps
    every column of the input as it was, apart from columns already named
    [roi] or [cltv], and has a column [roi] holding [revenue / cost] and a
    column [cltv] holding [(revenue - cost) * conversion_rate / cost], row
    by row. *)
Theorem enriched_frame_keeps_input_columns (df df' : DataFrame)
  (by_channel : list ChannelSummary) (meta : SummaryStats) :
  _compute_metrics df = Return (df', by_channel, meta) ->
  (forall c, c <> "roi" -> c <> "cltv" -> lookup_col df' c = lookup_col df c) /\
  (forall c, In c (columns df) -> In c (columns df')) /\
  exists revenue_f cost_f conv_f,
    numeric_column df "revenue" = Return revenue_f /\
    numeric_column df "cost" = Return cost_f /\
    numeric_column df "conversion_rate" = Return conv_f /\
    lookup_col df' "roi" = Some (of_floats (zip_with div revenue_f cost_f)) /\
    lookup_col df' "cltv" =
    Some (of_floats
            (zip_with div (zip_with mul (zip_with sub revenue_f cost_f) conv_f)
                      cost_f)).
Proof.
  intros H.
  destruct (compute_metrics_inv _ _ _ _ H)
    as (revenue_s & cost_s & conv_s & channel_col & ids & revenue_f & cost_f &
        conv_f & _ & Hrev & Hcost & Hconv & _ & _ & Erev & Ecost & Econv &
        Hdf & _).
  cbv zeta in Hdf. subst df'.
  assert (Hkeep : forall c, c <> "roi" -> c <> "cltv" ->
            lookup_col (setitem (setitem df "roi"
                (of_floats (zip_with div revenue_f cost_f))) "cltv"
                (of_floats (zip_with div
                   (zip_with mul (zip_with sub revenue_f cost_f) conv_f) cost_f))) c
            = lookup_col df c).
  { intros c H1 H2.
    rewrite !lookup_col_setitem_other by (intros E; symmetry in E; contradiction).
    reflexivity. }
  split; [exact Hkeep|]. split.
  - intros c Hc. destruct (lookup_col_In df c Hc) as (s & Hs & _).
    destruct (String.eqb_spec c "roi") as [->|H1];
      [|destruct (String.eqb_spec c "cltv") as [->|H2]].
    + eapply lookup_col_Some.
      rewrite lookup_col_setitem_other by discriminate.
      apply lookup_col_setitem_same.
    + eapply lookup_col_Some. apply lookup_col_setitem_same.
    + eapply lookup_col_Some. rewrite (Hkeep c H1 H2). exact Hs.
  - exists revenue_f, cost_f, conv_f.
    unfold numeric_column, getitem. rewrite Hrev, Hcost, Hconv. cbn [bind].
    repeat split; try assumption.
    + rewrite lookup_col_setitem_other by discriminate.
      apply lookup_col_setitem_same.
    + apply lookup_col_setitem_same.
Qed.

Lemma enriched_frame_keeps_input_columns_witness :
  exists df',
    _compute_metrics scenario_table_reordered =
    Return (df', scenario_report, scenario_meta) /\
    lookup_col df' "signup_date" = Some [Str "2024-01-05"; Str "2024-02-11"] /\
    lookup_col df' "roi" = Some [Num (Finite 2); Num (Finite (1 # 2))] /\
    lookup_col df' "cltv" = Some [Num (Finite (1 # 2)); Num (Finite (-1 # 10))].
Proof.
  assert (H : exists df', _compute_metrics scenario_table_reordered =
                          Return (df', scenario_report, scenario_meta))
    by (eexists; vm_compute; reflexivity).
  destruct H as (df' & H). exists df'. split; [exact H|].
  destruct (enriched_frame_keeps_input_columns _ _ _ _ H)
    as (Hkeep & _ & revenue_f & cost_f & conv_f & Hr & Hc & Hp & Hroi & Hcltv).
  split; [rewrite Hkeep by discriminate; reflexivity|].
  vm_compute in Hr, Hc, Hp.
  inversion Hr; inversion Hc; inversion Hp; subst.
  split; [exact Hroi | exact Hcltv].
Defined.

Lemma as_floats_text (s : Series) :
  has_text s = true -> as_floats s = Raise TypeError.
Proof.
  unfold has_text, as_floats.
  induction s as [|c s IH]; simpl; [discriminate|].
  destruct c as [x|t]; simpl; [|reflexivity].
  intros H. now rewrite IH.
Qed.

Lemma as_floats_raises (s : Series) (e : exn) :
  as_floats s = Raise e -> e = TypeError.
Proof.
  unfold as_floats. revert e.
  induction s as [|c s IH]; simpl; intros e; [discriminate|].
  destruct c as [x|t]; simpl; [|now inversion 1].
  destruct (mapM Cell.to_float s); simpl; [discriminate|].
  intros H. inversion H; subst. now apply IH.
Qed.

(** X4.  A frame that has the five required columns but holds text in its
    [revenue], [cost] or [conversion_rate] column makes [_compute_metrics]
    raise [TypeError]: the arithmetic does not skip or coerce the cell. *)
Theorem text_in_numeric_column_raises (df : DataFrame) (c : string) (s : Series) :
  missing_cols df = [] ->
  In c ["revenue"; "cost"; "conversion_rate"] ->
  lookup_col df c = Some s ->
  has_text s = true ->
  _compute_metrics df = Raise TypeError.
Proof.
  intros Hmiss Hc Hs Htext.
  assert (Hhas : forall c', In c' REQUIRED_COLS -> exists s', lookup_col df c' = Some s').
  { intros c' Hc'. destruct (lookup_col df c') eqn:E; [eauto|].
    assert (Hin : In c' (missing_cols df)).
    { apply missing_cols_spec. split; [exact Hc'|].
      intros Hcol. destruct (lookup_col_In df c' Hcol) as (s' & Hs' & _).
      congruence. }
    rewrite Hmiss in Hin. destruct Hin. }
  destruct (Hhas "revenue") as (rs & Hrev); [simpl; tauto|].
  destruct (Hhas "cost") as (cs & Hcost); [simpl; tauto|].
  destruct (Hhas "conversion_rate") as (ps & Hconv); [simpl; tauto|].
  unfold _compute_metrics, _ensure_cols, numeric_column, getitem.
  rewrite Hmiss, Hrev, Hcost, Hconv. cbn [bind].
  destruct (as_floats rs) as [rf|e1] eqn:E1;
    [|now rewrite (as_floats_raises rs e1 E1)].
  cbn [bind].
  destruct (as_floats cs) as [cf|e2] eqn:E2;
    [|now rewrite (as_floats_raises cs e2 E2)].
  cbn [bind].
  destruct (as_floats ps) as [pf|e3] eqn:E3;
    [|now rewrite (as_floats_raises ps e3 E3)].
  exfalso. simpl in Hc.
  destruct Hc as [<-|[<-|[<-|[]]]].
  - rewrite Hrev in Hs. inversion Hs; subst.
    rewrite (as_floats_text s Htext) in E1. discriminate.
  - rewrite Hcost in Hs. inversion Hs; subst.
    rewrite (as_floats_text s Htext) in E2. discriminate.
  - rewrite Hconv in Hs. inversion Hs; subst.
    rewrite (as_floats_text s Htext) in E3. discriminate.
Qed.

Lemma text_in_numeric_column_raises_witness :
  missing_cols table_with_text_cost = [] /\
  lookup_col table_with_text_cost "cost" = Some [Num (Finite 10); Str "n/a"] /\
  _compute_metrics table_with_text_cost = Raise TypeError.
Proof.
  split; [reflexivity|]. split; [reflexivity|].
  apply (text_in_numeric_column_raises table_with_text_cost "cost"
           [Num (Finite 10); Str "n/a"]); try reflexivity.
  simpl. tauto.
Defined.

(* ------------------------------------------------------------------ *)
(** ** Sums over the report of a valid table *)

Lemma Qred_Qred (q : Q) : Qred (Qred q) = Qred q.
Proof. apply Qred_complete, Qred_correct. Qed.

Lemma qsum_nil : qsum [] = 0%Q.
Proof. reflexivity. Qed.

Lemma qsum_cons (x : float64) (xs : list float64) :
  qsum (x :: xs) = (to_Q x + qsum xs)%Q.
Proof. reflexivity. Qed.

Lemma fold_add_canonical (xs : list float64) (a : Q) :
  Forall (fun x => isfinite x = true) xs ->
  fold_left add xs (Finite (Qred a)) = Finite (Qred (a + qsum xs)).
Proof.
  intros H. revert a. induction H as [|x xs Hx Hxs IH]; intros a.
  - cbn [fold_left]. f_equal. apply Qred_complete. rewrite qsum_nil. lra.
  - destruct (isfinite_Finite x Hx) as (b & ->).
    cbn [fold_left add]. rewrite IH, qsum_cons. cbn [to_Q].
    f_equal. apply Qred_complete. rewrite Qred_correct. lra.
Qed.

(** The sum of finite floats is the reduced fraction of their exact sum. *)
Lemma sum_canonical (xs : list float64) :
  Forall (fun x => isfinite x = true) xs ->
  Float.sum xs = Finite (Qred (qsum xs)).
Proof.
  intros H. unfold Float.sum.
  change (Finite 0) with (Finite (Qred 0)).
  rewrite (fold_add_canonical xs 0 H). f_equal. apply Qred_complete. lra.
Qed.

Lemma group_keys_valid (recs : list CustomerRecord) (r : CustomerRecord) :
  valid_table recs -> In r recs ->
  exists s, r_channel r = Str s /\
            In (Str s) (group_keys (map r_channel recs)).
Proof.
  intros Hvalid Hr.
  destruct (valid_record_fields r (Hvalid r Hr)) as (s & _ & _ & _ & Hs & _).
  exists s. split; [exact Hs|].
  destruct (group_keys_cover (map r_channel recs) (r_channel r)) as (k & Hk & Heq).
  { now apply in_map. }
  { rewrite Hs. reflexivity. }
  rewrite Hs, cell_eqb_sym in Heq. apply cell_eqb_text in Heq. now subst k.
Qed.

Lemma group_keys_NoDup (s : Series) : NoDup (group_keys s).
Proof.
  apply sorted_keys_NoDup; [apply group_keys_notna | apply group_keys_sorted].
Qed.




(* ------------------------------------------------------------------ *)
(** ** Customers per channel *)

Lemma nsum_Permutation {A : Type} (f : A -> nat) (l l' : list A) :
  Permutation l l' -> nsum f l = nsum f l'.
Proof. induction 1; simpl; lia. Qed.

Lemma nsum_map {A B : Type} (g : A -> B) (f : B -> nat) (l : list A) :
  nsum f (map g l) = nsum (fun a => f (g a)) l.
Proof. induction l as [|a l IH]; simpl; [reflexivity | now rewrite IH]. Qed.

Lemma nsum_ext {A : Type} (f g : A -> nat) (l : list A) :
  (forall a, In a l -> f a = g a) -> nsum f l = nsum g l.
Proof.
  induction l as [|a l IH]; simpl; intros H; [reflexivity|].
  rewrite (H a (or_introl eq_refl)), IH; [reflexivity|].
  intros; apply H; now right.
Qed.

Lemma nsum_plus {A : Type} (f g : A -> nat) (l : list A) :
  nsum (fun a => (f a + g a)%nat) l = (nsum f l + nsum g l)%nat.
Proof. induction l as [|a l IH]; simpl; [reflexivity | rewrite IH; lia]. Qed.

Lemma nsum_zero {A : Type} (l : list A) : nsum (fun _ => 0%nat) l = 0%nat.
Proof. induction l as [|a l IH]; simpl; [reflexivity | exact IH]. Qed.

Lemma nsum_indicator (keys : list cell) (s : string) (n : nat) :
  NoDup keys -> In (Str s) keys ->
  nsum (fun k => if Cell.eqb k (Str s) then n else 0%nat) keys = n.
Proof.
  induction 1 as [|k keys Hk Hnd IH]; simpl; [tauto|].
  intros [-> | Hin].
  - simpl. rewrite String.eqb_refl.
    rewrite (nsum_ext _ (fun _ => 0%nat)); [rewrite nsum_zero; lia|].
    intros a Ha. destruct (Cell.eqb a (Str s)) eqn:E; [|reflexivity].
    rewrite cell_eqb_sym in E. apply cell_eqb_text in E. subst. contradiction.
  - destruct (Cell.eqb k (Str s)) eqn:E.
    + rewrite cell_eqb_sym in E. apply cell_eqb_text in E. subst. contradiction.
    + rewrite IH by exact Hin. reflexivity.
Qed.

Lemma group_count_partition (recs : list CustomerRecord) (keys : list cell) :
  NoDup keys ->
  (forall r, In r recs -> exists s, r_channel r = Str s /\ In (Str s) keys) ->
  nsum (fun k => count (map customer_id (rows_of_channel recs k))) keys =
  count (map customer_id recs).
Proof.
  intros Hnd. unfold count.
  induction recs as [|r recs IH]; intros Hin; simpl.
  - apply nsum_zero.
  - destruct (Hin r (or_introl eq_refl)) as (s & Hs & Hk).
    rewrite (nsum_ext _
      (fun k => ((if Cell.eqb k (Str s)
                  then (if Cell.notna (customer_id r) then 1 else 0)
                  else 0) +
                 List.length (filter Cell.notna
                                (map customer_id (rows_of_channel recs k))))%nat)).
    + rewrite nsum_plus, nsum_indicator by assumption.
      rewrite IH by (intros r' Hr'; apply Hin; now right).
      destruct (Cell.notna (customer_id r)); reflexivity.
    + intros k _. rewrite Hs.
      destruct (Cell.eqb k (Str s)); simpl; [|reflexivity].
      destruct (Cell.notna (customer_id r)); reflexivity.
Qed.

(** X6.  For a valid table, the [customers] of the channels add up to the
    number of rows whose [customer_id] is not missing: every customer is
    counted in exactly one channel. *)
Theorem channel_customers_add_up (df : DataFrame) (recs : list CustomerRecord) :
  rows_of df recs ->
  valid_table recs ->
  exists df' by_channel meta,
    _compute_metrics df = Return (df', by_channel, meta) /\
    nsum customers by_channel = count (map customer_id recs).
Proof.
  intros Hrows Hvalid.
  rewrite (compute_metrics_rows df recs Hrows).
  eexists _, _, _. split; [reflexivity|].
  unfold with_revenue_share.
  rewrite nsum_map. simpl.
  rewrite (nsum_Permutation _ _ _ (sort_values_desc_Permutation g_avg_cltv _)).
  rewrite nsum_map. simpl.
  apply group_count_partition; [apply group_keys_NoDup|].
  intros r Hr. now apply group_keys_valid.
Qed.

Lemma channel_customers_add_up_witness :
  rows_of (table_of three_records) three_records /\
  valid_table three_records /\
  exists df' by_channel meta,
    _compute_metrics (table_of three_records) = Return (df', by_channel, meta) /\
    nsum customers by_channel = 3%nat.
Proof.
  assert (H1 : rows_of (table_of three_records) three_records)
    by apply rows_of_table_of.
  assert (H2 : valid_table three_records).
  { intros r [<-|[<-|[<-|[]]]]; reflexivity. }
  split; [exact H1|]. split; [exact H2|].
  destruct (channel_customers_add_up _ _ H1 H2)
    as (df' & by_channel & meta & Hc & Hsum).
  exists df', by_channel, meta. split; [exact Hc|].
  rewrite Hsum. reflexivity.
Defined.

(* ------------------------------------------------------------------ *)
(** ** The summary and the bounds of the report *)

Lemma enriched_aligned (df : DataFrame) (recs : list CustomerRecord) :
  aligned df (List.length recs) -> aligned (enriched df recs) (List.length recs).
Proof.
  intros H c s Hin. unfold enriched in Hin.
  apply setitem_In in Hin. destruct Hin as [Hin | ->].
  - apply setitem_In in Hin. destruct Hin as [Hin | ->].
    + eapply H, Hin.
    + unfold of_floats. now rewrite !length_map.
  - unfold of_floats. now rewrite !length_map.
Qed.

Lemma setitem_nonempty (df : DataFrame) (c : string) (s : Series) :
  setitem df c s <> [].
Proof.
  destruct df as [|[name s0] df]; simpl; [discriminate|].
  destruct (String.eqb name c); discriminate.
Qed.

Lemma len_aligned (df : DataFrame) (n : nat) :
  df <> [] -> aligned df n -> len df = n.
Proof.
  destruct df as [|[c s] df]; [contradiction|]. intros _ H. simpl.
  apply (H c s). now left.
Qed.

(** X7.  For a valid table whose columns all have one row per record, the
    summary has [rows] equal to the number of rows, and its
    [current_weighted_roi] and [current_avg_cltv] are the arithmetic means
    of the per-row [roi] and [cltv] over all rows, whatever their channel. *)
Theorem summary_is_over_all_rows (df : DataFrame) (recs : list CustomerRecord) :
  rows_of df recs ->
  valid_table recs ->
  aligned df (List.length recs) ->
  exists df' by_channel meta,
    _compute_metrics df = Return (df', by_channel, meta) /\
    rows meta = List.length recs /\
    meta_current_weighted_roi meta = arithmetic_mean (map row_roi recs) /\
    current_avg_cltv meta = arithmetic_mean (map row_cltv recs).
Proof.
  intros Hrows Hvalid Hal.
  rewrite (compute_metrics_rows df recs Hrows).
  eexists _, _, _. split; [reflexivity|]. simpl.
  split; [|split].
  - apply len_aligned; [apply setitem_nonempty | now apply enriched_aligned].
  - apply nanmean_finite, Forall_map_valid; [apply valid_row_roi | exact Hvalid].
  - apply nanmean_finite, Forall_map_valid; [apply valid_row_cltv | exact Hvalid].
Qed.

Lemma summary_is_over_all_rows_witness :
  rows_of (table_of three_records) three_records /\
  valid_table three_records /\
  aligned (table_of three_records) (List.length three_records) /\
  exists df' by_channel meta,
    _compute_metrics (table_of three_records) = Return (df', by_channel, meta) /\
    rows meta = 3%nat /\
    meta_current_weighted_roi meta = Finite (5 # 4).
Proof.
  assert (H1 : rows_of (table_of three_records) three_records)
    by apply rows_of_table_of.
  assert (H2 : valid_table three_records).
  { intros r [<-|[<-|[<-|[]]]]; reflexivity. }
  assert (H3 : aligned (table_of three_records) (List.length three_records)).
  { intros c s [H|[H|[H|[H|[H|[]]]]]]; inversion H; reflexivity. }
  split; [exact H1|]. split; [exact H2|]. split; [exact H3|].
  destruct (summary_is_over_all_rows _ _ H1 H2 H3)
    as (df' & by_channel & meta & Hc & Hr & Hroi & _).
  exists df', by_channel, meta. split; [exact Hc|]. split; [exact Hr|].
  rewrite Hroi. reflexivity.
Defined.

Lemma valid_cost (r : CustomerRecord) :
  valid_record r = true -> isfinite (cost r) = true.
Proof.
  intros H. destruct (valid_record_fields r H)
    as (s & c & p & v & _ & Hc & _). now rewrite Hc.
Qed.

Lemma valid_conversion_rate (r : CustomerRecord) :
  valid_record r = true -> isfinite (conversion_rate r) = true.
Proof.
  intros H. destruct (valid_record_fields r H)
    as (s & c & p & v & _ & _ & Hp & _). now rewrite Hp.
Qed.









(* ------------------------------------------------------------------ *)
(** ** The order of the rows of the input *)

Lemma filter_Permutation {A : Type} (p : A -> bool) (l l' : list A) :
  Permutation l l' -> Permutation (filter p l) (filter p l').
Proof.
  induction 1 as [|x l l' _ IH|x y l|l l' l'' _ IH1 _ IH2]; simpl.
  - constructor.
  - destruct (p x); [now constructor | exact IH].
  - destruct (p x), (p y); try reflexivity. apply perm_swap.
  - now rewrite IH1.
Qed.

Lemma key_lt_irrefl (k : cell) : Cell.notna k = true -> ~ key_lt k k.
Proof.
  intros Hna H. apply cell_ltb_neq in H.
  rewrite cell_eqb_refl in H by exact Hna. discriminate.
Qed.

(** Two ascending lists of keys with the same members are the same list. *)
Lemma sorted_keys_unique (l1 l2 : list cell) :
  Forall (fun x => Cell.notna x = true) l1 ->
  StronglySorted key_lt l1 -> StronglySorted key_lt l2 ->
  (forall x, In x l1 <-> In x l2) -> l1 = l2.
Proof.
  intros Hna H1. revert l2.
  induction H1 as [|a l1 H1 IH Ha]; intros l2 H2 Hmem.
  - destruct l2 as [|b l2]; [reflexivity|].
    destruct (proj2 (Hmem b) (or_introl eq_refl)).
  - inversion Hna as [|? ? Hana Hna']; subst.
    destruct H2 as [|b l2 H2 Hb].
    { destruct (proj1 (Hmem a) (or_introl eq_refl)). }
    rewrite Forall_forall in Ha, Hb.
    assert (Hab : a = b).
    { destruct (proj1 (Hmem a) (or_introl eq_refl)) as [E|Hin]; [now symmetry|].
      destruct (proj2 (Hmem b) (or_introl eq_refl)) as [E|Hin']; [exact E|].
      exfalso. apply (key_lt_irrefl a Hana).
      unfold key_lt in *. eapply cell_ltb_trans; [apply Ha, Hin' | apply Hb, Hin]. }
    subst b. f_equal. apply IH; [exact Hna' | exact H2|].
    intros x. split; intros Hx.
    + destruct (proj1 (Hmem x) (or_intror Hx)) as [E|Hin]; [|exact Hin].
      subst x. exfalso. apply (key_lt_irrefl a Hana), Ha, Hx.
    + destruct (proj2 (Hmem x) (or_intror Hx)) as [E|Hin]; [|exact Hin].
      subst x. exfalso. apply (key_lt_irrefl a Hana), Hb, Hx.
Qed.

Lemma valid_table_Permutation (recs recs' : list CustomerRecord) :
  Permutation recs recs' -> valid_table recs -> valid_table recs'.
Proof.
  intros Hperm Hvalid r Hr. apply Hvalid.
  now apply (Permutation_in _ (Permutation_sym Hperm)).
Qed.

Lemma group_keys_text_In (recs : list CustomerRecord) (k : cell) :
  valid_table recs ->
  (In k (group_keys (map r_channel recs)) <-> In k (map r_channel recs)).
Proof.
  intros Hvalid. split.
  - intros Hk. now apply group_keys_In in Hk.
  - intros Hk. apply in_map_iff in Hk. destruct Hk as (r & <- & Hr).
    destruct (group_keys_valid recs r Hvalid Hr) as (s & -> & Hin). exact Hin.
Qed.

Lemma group_keys_Permutation (recs recs' : list CustomerRecord) :
  Permutation recs recs' -> valid_table recs ->
  group_keys (map r_channel recs) = group_keys (map r_channel recs').
Proof.
  intros Hperm Hvalid.
  pose proof (valid_table_Permutation _ _ Hperm Hvalid) as Hvalid'.
  apply sorted_keys_unique;
    [apply group_keys_notna | apply group_keys_sorted | apply group_keys_sorted|].
  intros x. rewrite !group_keys_text_In by assumption.
  split; apply Permutation_in; [|apply Permutation_sym]; now apply Permutation_map.
Qed.

Lemma mean_Permutation (xs ys : list float64) :
  Forall (fun x => isfinite x = true) xs ->
  Permutation xs ys -> nanmean xs = nanmean ys.
Proof.
  intros Hfin Hperm.
  assert (Hfin' : Forall (fun x => isfinite x = true) ys)
    by (eapply Permutation_Forall; eassumption).
  rewrite !nanmean_finite by assumption. unfold arithmetic_mean.
  rewrite !sum_canonical by assumption.
  rewrite (Permutation_length Hperm).
  now rewrite (Qred_complete _ _ (qsum_Permutation xs ys Hperm)).
Qed.

Lemma nansum_Permutation (xs ys : list float64) :
  Forall (fun x => isfinite x = true) xs ->
  Permutation xs ys -> nansum xs = nansum ys.
Proof.
  intros Hfin Hperm.
  assert (Hfin' : Forall (fun x => isfinite x = true) ys)
    by (eapply Permutation_Forall; eassumption).
  rewrite !nansum_finite, !sum_canonical by assumption.
  now rewrite (Qred_complete _ _ (qsum_Permutation xs ys Hperm)).
Qed.

Lemma channel_aggregate_Permutation (recs recs' : list CustomerRecord) (k : cell) :
  Permutation recs recs' -> valid_table recs ->
  channel_aggregate recs k = channel_aggregate recs' k.
Proof.
  intros Hperm Hvalid.
  assert (Hrows : Permutation (rows_of_channel recs k) (rows_of_channel recs' k))
    by (now apply filter_Permutation).
  pose proof (rows_of_channel_valid recs k Hvalid) as Hv.
  assert (Hm : forall f, (forall r, valid_record r = true -> isfinite (f r) = true) ->
             nanmean (map f (rows_of_channel recs k)) =
             nanmean (map f (rows_of_channel recs' k))).
  { intros f Hf. apply mean_Permutation; [now apply Forall_map_valid|].
    now apply Permutation_map. }
  unfold channel_aggregate. cbv zeta. f_equal.
  - unfold count. apply Permutation_length, filter_Permutation.
    now apply Permutation_map.
  - apply Hm, valid_cost.
  - apply Hm, valid_conversion_rate.
  - apply nansum_Permutation;
      [apply Forall_map_valid; [apply valid_revenue | exact Hv]|].
    now apply Permutation_map.
  - apply Hm, valid_row_roi.
  - apply Hm, valid_row_cltv.
Qed.

(** X10.  In exact arithmetic the report of a valid table does not depend
    on the order of its rows: two tables with the same records in different
    orders get the same channel report, row for row, and the same channel
    count and means in the summary. *)
Theorem report_independent_of_row_order (df1 df2 : DataFrame)
  (recs1 recs2 : list CustomerRecord) :
  rows_of df1 recs1 ->
  rows_of df2 recs2 ->
  valid_table recs1 ->
  Permutation recs1 recs2 ->
  same_report (_compute_metrics df1) (_compute_metrics df2).
Proof.
  intros H1 H2 Hvalid Hperm.
  pose proof (valid_table_Permutation _ _ Hperm Hvalid) as Hvalid'.
  rewrite (compute_metrics_rows df1 recs1 H1), (compute_metrics_rows df2 recs2 H2).
  unfold same_report, nunique.
  cbn [channels meta_current_weighted_roi current_avg_cltv].
  rewrite <- (group_keys_Permutation recs1 recs2 Hperm Hvalid).
  rewrite (map_ext _ _ (fun k => channel_aggregate_Permutation recs1 recs2 k
                                   Hperm Hvalid)).
  split; [reflexivity|]. split; [reflexivity|]. split.
  - apply mean_Permutation;
      [apply Forall_map_valid; [apply valid_row_roi | exact Hvalid]|].
    now apply Permutation_map.
  - apply mean_Permutation;
      [apply Forall_map_valid; [apply valid_row_cltv | exact Hvalid]|].
    now apply Permutation_map.
Qed.

Lemma report_independent_of_row_order_witness :
  rows_of (table_of three_records) three_records /\
  rows_of (table_of three_records_shuffled) three_records_shuffled /\
  valid_table three_records /\
  Permutation three_records three_records_shuffled /\
  same_report (_compute_metrics (table_of three_records))
              (_compute_metrics (table_of three_records_shuffled)).
Proof.
  assert (H1 : rows_of (table_of three_records) three_records)
    by apply rows_of_table_of.
  assert (H2 : rows_of (table_of three_records_shuffled) three_records_shuffled)
    by apply rows_of_table_of.
  assert (H3 : valid_table three_records).
  { intros r [<-|[<-|[<-|[]]]]; reflexivity. }
  assert (H4 : Permutation three_records three_records_shuffled).
  { unfold three_records, three_records_shuffled.
    eapply perm_trans; [apply perm_swap|].
    eapply perm_trans; [apply perm_skip, perm_swap|].
    apply perm_swap. }
  repeat (split; [assumption|]).
  exact (report_independent_of_row_order _ _ _ _ H1 H2 H3 H4).
Defined.

(* ================================================================== *)
(** * Further properties of the simulator *)





(** X12.  With no report loaded, or an empty one, the simulation never
    raises and never computes: it returns a message and [None], the message
    being "Invalid JSON." when the allocation text does not parse and
    "Load data first." when it does, whatever it parses to. *)
Theorem no_report_never_raises (by_df : option (list ChannelSummary))
  (text : string) :
  by_df = None \/ by_df = Some [] ->
  simulate_reallocation by_df text =
  Return (match Json.loads (allocation_text text) with
          | None => invalid_json_text
          | Some _ => load_data_first_text
          end, None).
Proof.
  intros H. unfold simulate_reallocation, allocation_text.
  destruct (Json.loads _); [|reflexivity].
  destruct H as [-> | ->]; reflexivity.
Qed.

Lemma no_report_never_raises_witness :
  simulate_reallocation None "[1]" = Return (load_data_first_text, None) /\
  simulate_reallocation (Some []) "{" = Return (invalid_json_text, None).
Proof.
  split.
  - exact (no_report_never_raises None "[1]" (or_introl eq_refl)).
  - exact (no_report_never_raises (Some []) "{" (or_intror eq_refl)).
Defined.





(* ------------------------------------------------------------------ *)
(** ** Normalized weights *)

Lemma rint_comp (q q' : Q) : (q == q')%Q -> rint q = rint q'.
Proof.
  intros H. unfold rint.
  rewrite (Qfloor_comp q q' H).
  assert (E : Qcompare (q - inject_Z (Qfloor q')) (1 # 2) =
              Qcompare (q' - inject_Z (Qfloor q')) (1 # 2))
    by (apply Qcompare_comp; [rewrite H; reflexivity | reflexivity]).
  now rewrite E.
Qed.

Lemma round2_comp (q q' : Q) :
  (q == q')%Q -> round2 (Finite q) = round2 (Finite q').
Proof.
  intros H. unfold round2. rewrite (rint_comp (q * 100) (q' * 100)); [reflexivity|].
  now rewrite H.
Qed.

Lemma with_defaults_split (by_df : list ChannelSummary) (weights : Dict.t) :
  well_formed_report by_df = true ->
  exists extra,
    with_defaults weights (map channel by_df) = (weights ++ extra)%list /\
    Forall (fun cw => snd cw = Finite 0 /\ in_report by_df (fst cw) = true) extra.
Proof.
  intros Hwf.
  assert (G : forall index w,
             (forall ch, In ch index -> in_report by_df ch = true) ->
             exists extra,
               with_defaults w index = (w ++ extra)%list /\
               Forall (fun cw => snd cw = Finite 0 /\
                                 in_report by_df (fst cw) = true) extra).
  { unfold with_defaults. induction index as [|ch index IH]; intros w Hidx; simpl.
    - exists []. split; [now rewrite app_nil_r | constructor].
    - destruct (IH (Dict.setdefault w ch (Finite 0))) as (extra & -> & Hex).
      { intros c Hc. apply Hidx. now right. }
      unfold Dict.setdefault. destruct (Dict.get w ch).
      + exists extra. auto.
      + exists ((ch, Finite 0) :: extra). split; [now rewrite <- app_assoc|].
        constructor; [|exact Hex]. split; [reflexivity|]. apply Hidx. now left. }
  apply G. intros ch Hch. apply in_map_iff in Hch. destruct Hch as (r & <- & Hr).
  now apply in_report_self.
Qed.

Lemma zero_terms (by_df : list ChannelSummary)
  (col : ChannelSummary -> float64) (weights : Dict.t) :
  (forall r, In r by_df -> isfinite (col r) = true) ->
  Forall (fun cw => snd cw = Finite 0 /\ in_report by_df (fst cw) = true) weights ->
  exists terms,
    mapM (fun cw => r <- loc by_df (fst cw) ;; Return (mul (col r) (snd cw)))
         weights = Return terms /\
    Forall (fun x => x = Finite 0) terms.
Proof.
  intros Hfin Hw.
  induction Hw as [|[k w] weights [Hz Hk] _ IH].
  - exists []. split; [reflexivity | constructor].
  - simpl in Hz, Hk. subst w. cbn [mapM fst snd].
    destruct (loc_known by_df k Hk) as (r & Hr). rewrite Hr. cbn [bind].
    destruct IH as (terms & -> & Hterms). cbn [bind].
    destruct (loc_In by_df k r Hr) as [Hin _].
    destruct (isfinite_Finite _ (Hfin r Hin)) as (a & ->). cbn [mul].
    rewrite Qred_zero by lra.
    eexists. split; [reflexivity|]. constructor; [reflexivity | exact Hterms].
Qed.

Lemma qsum_zeros (xs : list float64) :
  Forall (fun x => x = Finite 0) xs -> (qsum xs == 0)%Q.
Proof.
  induction 1 as [|x xs -> _ IH]; [reflexivity|].
  rewrite qsum_cons, IH. reflexivity.
Qed.

Lemma zeros_finite (xs : list float64) :
  Forall (fun x => x = Finite 0) xs -> Forall (fun x => isfinite x = true) xs.
Proof. apply Forall_impl. now intros x ->. Qed.

(** All the weight on one channel of the report projects that channel. *)
Lemma weighted_sum_single (by_df : list ChannelSummary)
  (col : ChannelSummary -> float64) (k : cell) (r : ChannelSummary)
  (extra : Dict.t) :
  (forall r, In r by_df -> isfinite (col r) = true) ->
  loc by_df k = Return r ->
  Forall (fun cw => snd cw = Finite 0 /\ in_report by_df (fst cw) = true) extra ->
  exists x q, weighted_sum by_df col ((k, Finite 1) :: extra) = Return (Finite x) /\
              col r = Finite q /\ (x == q)%Q.
Proof.
  intros Hfin Hloc Hextra. unfold weighted_sum. cbn [mapM fst snd].
  rewrite Hloc. cbn [bind].
  destruct (zero_terms by_df col extra Hfin Hextra) as (terms & -> & Hterms).
  cbn [bind].
  destruct (loc_In by_df k r Hloc) as [Hin _].
  destruct (isfinite_Finite _ (Hfin r Hin)) as (a & Ha). rewrite Ha. cbn [mul].
  rewrite sum_canonical
    by (constructor; [reflexivity | now apply zeros_finite]).
  eexists _, a. split; [reflexivity|]. split; [reflexivity|].
  rewrite Qred_correct, qsum_cons, (qsum_zeros terms Hterms). cbn [to_Q].
  rewrite Qred_correct. lra.
Qed.

(** X14.  On a well-formed report with finite averages, an allocation that
    names one channel of the report, with any finite weight other than
    zero, projects that channel alone: [new_weighted_roi] is its [avg_roi]
    and [new_weighted_cltv] its [avg_cltv], rounded to two decimals. *)
Theorem single_channel_allocation_projects_that_channel
  (by_df : list ChannelSummary) (text key : string) (v : json) (q : Q)
  (r : ChannelSummary) :
  well_formed_report by_df = true ->
  finite_kpis by_df = true ->
  Json.loads (allocation_text text) = Some (JObj [(key, v)]) ->
  number_of v = Return (Finite q) ->
  ~ (q == 0)%Q ->
  loc by_df (Str key) = Return r ->
  exists txt d,
    simulate_reallocation (Some by_df) text = Return (txt, Some d) /\
    new_weighted_roi d = round2 (avg_roi r) /\
    new_weighted_cltv d = round2 (avg_cltv r).
Proof.
  intros Hwf Hfin Hloads Hv Hq Hloc.
  assert (Hne : by_df <> []) by (intros ->; discriminate).
  assert (Hsum : sum_values (map snd [(key, v)]) = Return (Finite (Qred (0 + q)))).
  { unfold sum_values. cbn [map snd mapM]. rewrite Hv. reflexivity. }
  assert (Htruthy : truthy (Finite (Qred (0 + q))) = true).
  { cbn [truthy]. apply negb_true_iff, Qeq_bool_false.
    rewrite Qred_correct. intros E. apply Hq. lra. }
  assert (Hw : normalized_weights [(key, v)]
                 (if truthy (Finite (Qred (0 + q))) then Finite (Qred (0 + q))
                  else Finite 1) = Return [(Str key, Finite 1)]).
  { rewrite Htruthy. unfold normalized_weights. cbn [mapM fst snd].
    rewrite Hv. cbn [bind]. rewrite (truediv_nonzero _ _ Htruthy). cbn [bind div].
    cbn [truthy] in Htruthy. apply negb_true_iff in Htruthy. rewrite Htruthy.
    replace (Qred (q / Qred (0 + q))) with (Qred 1); [reflexivity|].
    apply Qred_complete. rewrite Qred_correct. field. intros E. apply Hq. lra. }
  destruct (with_defaults_split by_df [(Str key, Finite 1)] Hwf)
    as (extra & Hext & Hextra).
  cbn [app] in Hext.
  destruct (weighted_sum_single by_df avg_roi (Str key) r extra)
    as (x1 & a1 & Hroi & Ha1 & Hx1); auto.
  { intros r' Hr'. now apply (finite_kpis_spec by_df r' Hfin Hr'). }
  destruct (weighted_sum_single by_df avg_cltv (Str key) r extra)
    as (x2 & a2 & Hcltv & Ha2 & Hx2); auto.
  { intros r' Hr'. now apply (finite_kpis_spec by_df r' Hfin Hr'). }
  rewrite <- Hext in Hroi, Hcltv.
  eexists _, _. split.
  - eapply (simulate_run by_df text [(key, v)]); eassumption.
  - cbn [new_weighted_roi new_weighted_cltv]. rewrite Ha1, Ha2.
    split; now apply round2_comp.
Qed.

Lemma single_channel_allocation_projects_that_channel_witness :
  well_formed_report scenario_report = true /\
  finite_kpis scenario_report = true /\
  Json.loads (allocation_text email_only_allocation) =
  Some (JObj [("email", JNum (Finite 100))]) /\
  exists txt d,
    simulate_reallocation (Some scenario_report) email_only_allocation =
    Return (txt, Some d) /\
    new_weighted_roi d = Finite 2 /\
    new_weighted_cltv d = Finite (1 # 2).
Proof.
  assert (H1 : well_formed_report scenario_report = true) by reflexivity.
  assert (H2 : finite_kpis scenario_report = true) by reflexivity.
  assert (H3 : Json.loads (allocation_text email_only_allocation) =
               Some (JObj [("email", JNum (Finite 100))]))
    by (vm_compute; reflexivity).
  split; [exact H1|]. split; [exact H2|]. split; [exact H3|].
  assert (Hq : ~ (100 == 0)%Q) by discriminate.
  destruct (single_channel_allocation_projects_that_channel scenario_report
              email_only_allocation "email" (JNum (Finite 100)) 100 _
              H1 H2 H3 eq_refl Hq eq_refl)
    as (txt & d & Hsim & Hroi & Hcltv).
  exists txt, d. split; [exact Hsim|]. split.
  - rewrite Hroi. reflexivity.
  - rewrite Hcltv. reflexivity.
Defined.















(* ================================================================== *)
(** * Loading and the session *)

Lemma channel_count_is_report_length (df df' : DataFrame)
  (by_channel : list ChannelSummary) (meta : SummaryStats) :
  _compute_metrics df = Return (df', by_channel, meta) ->
  channels meta = List.length by_channel.
Proof.
  intros H.
  destruct (compute_metrics_inv _ _ _ _ H)
    as (revenue_s & cost_s & conv_s & channel_col & ids & revenue_f & cost_f &
        conv_f & _ & _ & _ & _ & _ & _ & _ & _ & _ & _ & Hby & Hmeta).
  rewrite Hmeta, Hby. cbn [channels]. unfold nunique, with_revenue_share.
  rewrite length_map.
  rewrite (Permutation_length (sort_values_desc_Permutation g_avg_cltv _)).
  unfold groupby_agg. now rewrite length_map.
Qed.

Lemma render_loaded_inv
  (loaded : outcome (DataFrame * list ChannelSummary * SummaryStats))
  (msg_prefix : string) (ui ui' : Dashboard) :
  render_loaded loaded msg_prefix ui = Done ui' ->
  exists df by_df meta,
    loaded = Done (df, by_df, meta) /\
    ui' = write_rendered (_render df by_df meta msg_prefix) ui.
Proof.
  unfold render_loaded. destruct loaded as [[[df by_df] meta]|f]; [|discriminate].
  intros H. inversion H. eauto.
Qed.

Lemma load_uploaded_inv (DATAFILE : string) (path_exists : string -> bool)
  (read_csv : string -> option DataFrame) (file : option string)
  (df' : DataFrame) (by_df : list ChannelSummary) (meta : SummaryStats) :
  load_uploaded DATAFILE path_exists read_csv file = Done (df', by_df, meta) ->
  exists path df,
    read_csv path = Some df /\
    _compute_metrics df = Return (df', by_df, meta) /\
    match file with
    | Some p => path = p
    | None => path = DATAFILE /\ path_exists DATAFILE = true
    end.
Proof.
  unfold load_uploaded, load_builtin, read_and_compute.
  destruct file as [p|].
  - destruct (read_csv p) as [df|] eqn:E; [|discriminate].
    destruct (_compute_metrics df) eqn:C; [|discriminate].
    intros H. inversion H; subst. exists p, df. auto.
  - destruct (path_exists DATAFILE) eqn:P; [|discriminate]. cbn [negb].
    destruct (read_csv DATAFILE) as [df|] eqn:E; [|discriminate].
    destruct (_compute_metrics df) eqn:C; [|discriminate].
    intros H. inversion H; subst. exists DATAFILE, df. auto.
Qed.

(** X17.  After a click on Load that succeeds, the session holds the triple
    that [_compute_metrics] returned for the table read, the table shown is
    the report held in the state and is well formed, the status line gives
    the row count and a channel count equal to the number of rows of the
    report, and the outputs of the simulator tab are untouched.  A click on
    Simulate with the empty allocation then never raises: it leaves the
    state as it is and shows a result, or "Load data first." when the
    report has no rows. *)
Theorem load_then_simulate (DATAFILE : string) (path_exists : string -> bool)
  (read_csv : string -> option DataFrame) (file : option string)
  (ui ui' : Dashboard) :
  on_load_uploaded DATAFILE path_exists read_csv file ui = Done ui' ->
  exists path df df' by_df meta,
    read_csv path = Some df /\
    _compute_metrics df = Return (df', by_df, meta) /\
    state_df (session ui') = Some df' /\
    state_by (session ui') = Some by_df /\
    state_meta (session ui') = Some meta /\
    by_table ui' = Some by_df /\
    meta_json ui' = Some meta /\
    well_formed_report by_df = true /\
    status ui' = "Uploaded CSV loaded • rows: " ++ str_of_nat (rows meta) ++
                 " • channels: " ++ str_of_nat (List.length by_df) /\
    sim_out (session ui') = sim_out (session ui) /\
    sim_json (session ui') = sim_json (session ui) /\
    exists s',
      sim_click "{}" (session ui') = Return s' /\
      state_df s' = Some df' /\
      state_by s' = Some by_df /\
      state_meta s' = Some meta /\
      match by_df with
      | [] => sim_out s' = load_data_first_text /\ sim_json s' = None
      | _ :: _ => exists d, sim_json s' = Some d /\ sim_out s' = render_text d
      end.
Proof.
  unfold on_load_uploaded. intros H.
  destruct (render_loaded_inv _ _ _ _ H) as (df' & by_df & meta & Hload & ->).
  destruct (load_uploaded_inv _ _ _ _ _ _ _ Hload) as (path & df & Hread & Hc & _).
  pose proof (compute_report_well_formed _ _ _ _ Hc) as Hwf.
  pose proof (channel_count_is_report_length _ _ _ _ Hc) as Hn.
  exists path, df, df', by_df, meta.
  cbn [write_rendered _render session status meta_json by_table r_state r_status
       r_meta r_table state_df state_by state_meta sim_out sim_json fst snd].
  rewrite Hn.
  repeat (split; [first [reflexivity | assumption]|]).
  unfold sim_click, _simulate. cbn [state_by state_df state_meta].
  destruct by_df as [|r0 by_df].
  - eexists. split; [reflexivity|]. cbn. repeat split.
  - destruct (empty_allocation_runs (r0 :: by_df)) as (txt & d & Hsim);
      [discriminate | exact Hwf|].
    rewrite Hsim. cbn [bind fst snd].
    eexists. split; [reflexivity|].
    cbn [state_df state_by state_meta sim_out sim_json].
    repeat (split; [reflexivity|]).
    exists d. split; [reflexivity|].
    destruct (simulate_inv _ _ _ _ Hsim)
      as (m & t & w & a & b & c & e & _ & _ & _ & _ & _ & _ & _ & _ & _ & Htxt).
    exact Htxt.
Qed.

Lemma load_then_simulate_witness :
  exists ui',
    on_load_uploaded "customer_acquisition_data.csv" sample_exists sample_read_csv
      (Some "data.csv") fresh_dashboard = Done ui' /\
    state_by (session ui') = Some scenario_report /\
    status ui' = "Uploaded CSV loaded • rows: 2 • channels: 2" /\
    exists s', sim_click "{}" (session ui') = Return s' /\
               state_by s' = Some scenario_report.
Proof.
  assert (H : exists ui',
             on_load_uploaded "customer_acquisition_data.csv" sample_exists
               sample_read_csv (Some "data.csv") fresh_dashboard = Done ui' /\
             state_by (session ui') = Some scenario_report /\
             status ui' = "Uploaded CSV loaded • rows: 2 • channels: 2").
  { eexists. split; [vm_compute; reflexivity|]. split; reflexivity. }
  destruct H as (ui' & Hload & Hby & Hstatus).
  exists ui'. repeat (split; [assumption|]).
  destruct (load_then_simulate _ _ _ _ _ _ Hload)
    as (path & df & df' & by_df & meta & _ & _ & _ & Hby' & _ & _ & _ & _ & _ &
        _ & _ & s' & Hsim & _ & Hs' & _).
  exists s'. split; [exact Hsim|]. now rewrite Hs', <- Hby', Hby.
Defined.

(** X18.  A click on "Load Uploaded CSV" with no file loads the built-in
    dataset: it succeeds or fails exactly as "Use Built-in Dataset" does,
    with the same failure or the same state, summary and table, and differs
    only in the status line, which still starts with "Uploaded CSV
    loaded". *)
Theorem upload_without_file_loads_builtin (DATAFILE : string)
  (path_exists : string -> bool) (read_csv : string -> option DataFrame)
  (ui : Dashboard) :
  match on_load_uploaded DATAFILE path_exists read_csv None ui,
        on_load_builtin DATAFILE path_exists read_csv ui with
  | Done u1, Done u2 =>
      session u1 = session u2 /\
      meta_json u1 = meta_json u2 /\
      by_table u1 = by_table u2 /\
      exists counts,
        status u1 = "Uploaded CSV loaded" ++ counts /\
        status u2 = "Built-in dataset loaded" ++ counts
  | Failed f1, Failed f2 =>
      f1 = f2 /\
      (path_exists DATAFILE = false ->
       f1 = GradioError (missing_dataset_message DATAFILE))
  | _, _ => False
  end.
Proof.
  unfold on_load_uploaded, on_load_builtin, load_uploaded, render_loaded,
    load_builtin.
  destruct (path_exists DATAFILE) eqn:P; cbn [negb].
  - destruct (read_and_compute read_csv DATAFILE) as [[[df by_df] meta]|f].
    + repeat split. eexists. split; reflexivity.
    + split; [reflexivity | discriminate].
  - split; reflexivity.
Qed.

(* ================================================================== *)
(** * The order of every report, and running the engine twice *)

Lemma sort_values_desc_general {A : Type} (key : A -> float64) (l : list A) :
  StronglySorted
    (fun a b => (isnan (key a) = true -> isnan (key b) = true) /\
                (isnan (key b) = false -> Float.leb (key b) (key a) = true))
    (sort_values_desc key l).
Proof.
  unfold sort_values_desc.
  set (nn := filter (fun a => negb (isnan (key a))) l).
  set (nans := filter (fun a => isnan (key a)) l).
  assert (Hnn : Forall (fun x => isnan (key x) = false) (rev nn)).
  { apply Forall_forall. intros x Hx. apply in_rev in Hx.
    unfold nn in Hx. apply filter_In in Hx. destruct Hx as [_ Hx].
    now apply negb_true_iff in Hx. }
  assert (Htrue : StronglySorted (fun _ _ : A => True) (rev nn)).
  { induction (rev nn) as [|a l' IH]; constructor.
    - apply IH. now inversion Hnn.
    - apply Forall_forall. auto. }
  pose proof (StronglySorted_rev _ _
                (argsort_ascending key (fun _ _ => True) (rev nn) Hnn Htrue)) as Hs.
  apply StronglySorted_app.
  - eapply StronglySorted_impl; [|exact Hs].
    intros a b Ha Hb Hab. cbv beta in Hab.
    assert (Hna : isnan (key a) = false).
    { apply in_rev in Ha.
      apply (Permutation_in _ (argsort_Permutation key (rev nn))) in Ha.
      rewrite Forall_forall in Hnn. now apply Hnn. }
    split; [congruence|]. intros _. now apply (ascending_leb key (fun _ _ => True)).
  - assert (Hall : Forall (fun x => isnan (key x) = true) nans).
    { apply Forall_forall. intros x Hx. unfold nans in Hx.
      now apply filter_In in Hx. }
    clear -Hall. induction nans as [|a l' IH]; constructor.
    + apply IH. now inversion Hall.
    + inversion Hall; subst. apply Forall_forall. intros b Hb.
      rewrite Forall_forall in H2. split; [intros _; now apply H2|].
      intros E. rewrite (H2 b Hb) in E. discriminate.
  - intros a b Ha Hb.
    assert (Hna : isnan (key a) = false).
    { apply in_rev in Ha.
      apply (Permutation_in _ (argsort_Permutation key (rev nn))) in Ha.
      rewrite Forall_forall in Hnn. now apply Hnn. }
    assert (Hnb : isnan (key b) = true)
      by (unfold nans in Hb; now apply filter_In in Hb).
    split; [congruence|]. intros E. congruence.
Qed.

(** X19.  Whatever the table, valid or not, the report that
    [_compute_metrics] returns has its rows in descending order of
    [avg_cltv], [inf] included, and the rows whose [avg_cltv] is [nan]
    after all the others. *)
Theorem report_descending_with_missing_last (df df' : DataFrame)
  (by_channel : list ChannelSummary) (meta : SummaryStats) :
  _compute_metrics df = Return (df', by_channel, meta) ->
  descending_missing_last by_channel.
Proof.
  intros H.
  destruct (compute_metrics_inv _ _ _ _ H)
    as (revenue_s & cost_s & conv_s & channel_col & ids & revenue_f & cost_f &
        conv_f & _ & _ & _ & _ & _ & _ & _ & _ & _ & _ & Hby & _).
  rewrite Hby. unfold with_revenue_share.
  intros i j ri rj Hi Hj Hlt.
  refine (StronglySorted_nth
            (fun r1 r2 => (isnan (avg_cltv r1) = true -> isnan (avg_cltv r2) = true) /\
                          (isnan (avg_cltv r2) = false ->
                           Float.leb (avg_cltv r2) (avg_cltv r1) = true))
            _ _ i j ri rj Hi Hj Hlt).
  apply StronglySorted_map. cbn [avg_cltv share_row].
  apply sort_values_desc_general.
Qed.

Lemma report_descending_with_missing_last_witness :
  exists df' by_channel meta,
    _compute_metrics table_with_undefined_channel = Return (df', by_channel, meta) /\
    map channel by_channel = [Str "social"; Str "email"; Str "organic"] /\
    map avg_cltv by_channel = [PosInf; Finite (1 # 2); NaN] /\
    descending_missing_last by_channel.
Proof.
  assert (H : exists df' by_channel meta,
             _compute_metrics table_with_undefined_channel =
             Return (df', by_channel, meta) /\
             map channel by_channel = [Str "social"; Str "email"; Str "organic"] /\
             map avg_cltv by_channel = [PosInf; Finite (1 # 2); NaN]).
  { eexists _, _, _. split; [vm_compute; reflexivity|]. split; reflexivity. }
  destruct H as (df' & by_channel & meta & Hc & Hch & Hv).
  exists df', by_channel, meta. repeat (split; [assumption|]).
  exact (report_descending_with_missing_last _ _ _ _ Hc).
Defined.

Lemma setitem_same (df : DataFrame) (c : string) (s : Series) :
  lookup_col df c = Some s -> setitem df c s = df.
Proof.
  induction df as [|[name s0] df IH]; simpl; [discriminate|].
  destruct (String.eqb name c) eqn:E.
  - intros H. now inversion H.
  - intros H. now rewrite IH.
Qed.

(** When the columns are there and numeric, the engine returns. *)
Lemma compute_metrics_intro (df : DataFrame)
  (revenue_s cost_s conv_s channel_col ids : Series)
  (revenue_f cost_f conv_f : list float64) :
  missing_cols df = [] ->
  lookup_col df "revenue" = Some revenue_s ->
  lookup_col df "cost" = Some cost_s ->
  lookup_col df "conversion_rate" = Some conv_s ->
  lookup_col df "channel" = Some channel_col ->
  lookup_col df "customer_id" = Some ids ->
  as_floats revenue_s = Return revenue_f ->
  as_floats cost_s = Return cost_f ->
  as_floats conv_s = Return conv_f ->
  let roi := zip_with div revenue_f cost_f in
  let cltv :=
    zip_with div (zip_with mul (zip_with sub revenue_f cost_f) conv_f) cost_f in
  let df' := setitem (setitem df "roi" (of_floats roi)) "cltv" (of_floats cltv) in
  _compute_metrics df =
  Return (df',
          with_revenue_share
            (sort_values_desc g_avg_cltv
               (groupby_agg channel_col ids cost_f conv_f revenue_f roi cltv)),
          {| rows := len df';
             channels := nunique channel_col;
             meta_current_weighted_roi := nanmean roi;
             current_avg_cltv := nanmean cltv |}).
Proof.
  intros Hmiss Hrev Hcost Hconv Hch Hid Erev Ecost Econv roi cltv df'.
  unfold _compute_metrics, _ensure_cols, numeric_column, getitem.
  rewrite Hmiss, Hrev. cbn [bind]. rewrite Erev. cbn [bind].
  rewrite Hcost. cbn [bind]. rewrite Ecost. cbn [bind].
  rewrite Hconv. cbn [bind]. rewrite Econv. cbn [bind].
  rewrite !lookup_col_setitem_other by discriminate.
  rewrite Hch. cbn [bind].
  rewrite ?lookup_col_setitem_other by discriminate.
  rewrite Hid. reflexivity.
Qed.

(** X20.  Running the engine on its own enriched frame changes nothing: it
    returns the same enriched frame, the same report and the same summary,
    the columns [roi] and [cltv] being recomputed in place. *)
Theorem compute_metrics_idempotent (df df' : DataFrame)
  (by_channel : list ChannelSummary) (meta : SummaryStats) :
  _compute_metrics df = Return (df', by_channel, meta) ->
  _compute_metrics df' = Return (df', by_channel, meta).
Proof.
  intros H.
  destruct (compute_metrics_inv _ _ _ _ H)
    as (revenue_s & cost_s & conv_s & channel_col & ids & revenue_f & cost_f &
        conv_f & Hmiss & Hrev & Hcost & Hconv & Hch & Hid & Erev & Ecost & Econv &
        Hdf & Hby & Hmeta).
  cbv zeta in Hdf, Hby, Hmeta.
  set (roi := zip_with div revenue_f cost_f) in *.
  set (cltv := zip_with div (zip_with mul (zip_with sub revenue_f cost_f) conv_f)
                        cost_f) in *.
  assert (Hkeep : forall c, c <> "roi" -> c <> "cltv" ->
                            lookup_col df' c = lookup_col df c).
  { intros c H1 H2. rewrite Hdf.
    rewrite !lookup_col_setitem_other by (intros E; symmetry in E; contradiction).
    reflexivity. }
  assert (Hsame : same_required df' df).
  { intros c Hc. apply Hkeep; intros ->; simpl in Hc;
      decompose [or] Hc; discriminate || contradiction. }
  assert (Hroi : lookup_col df' "roi" = Some (of_floats roi)).
  { rewrite Hdf. rewrite lookup_col_setitem_other by discriminate.
    apply lookup_col_setitem_same. }
  assert (Hcltv : lookup_col df' "cltv" = Some (of_floats cltv)).
  { rewrite Hdf. apply lookup_col_setitem_same. }
  assert (Hfix : setitem (setitem df' "roi" (of_floats roi)) "cltv" (of_floats cltv)
                 = df').
  { rewrite (setitem_same df' "roi" _ Hroi). apply (setitem_same df' "cltv" _ Hcltv). }
  rewrite (compute_metrics_intro df' revenue_s cost_s conv_s channel_col ids
             revenue_f cost_f conv_f).
  - cbv zeta. fold roi cltv. rewrite Hfix, Hby, Hmeta. rewrite ?Hdf. reflexivity.
  - rewrite (missing_cols_same df' df Hsame). exact Hmiss.
  - rewrite Hkeep by discriminate. exact Hrev.
  - rewrite Hkeep by discriminate. exact Hcost.
  - rewrite Hkeep by discriminate. exact Hconv.
  - rewrite Hkeep by discriminate. exact Hch.
  - rewrite Hkeep by discriminate. exact Hid.
  - exact Erev.
  - exact Ecost.
  - exact Econv.
Qed.

Lemma compute_metrics_idempotent_witness :
  _compute_metrics (table_of scenario_records) =
  Return (enriched (table_of scenario_records) scenario_records,
          scenario_report, scenario_meta) /\
  _compute_metrics (enriched (table_of scenario_records) scenario_records) =
  Return (enriched (table_of scenario_records) scenario_records,
          scenario_report, scenario_meta).
Proof.
  split; [exact scenario_computed|].
  exact (compute_metrics_idempotent _ _ _ _ scenario_computed).
Defined.
